(** * Ciudad Conectada: offline synchronisation of the page and its service worker

    A shallow embedding of the offline-first core of the application:
    the API gateway ([apiCall]), the session teardown ([logout]), the
    synchronisation queue ([enqueueSyncAction], [processSyncQueue]) of
    [app.js], and the cache policy of the service worker (the [install],
    [activate] and [fetch] handlers and [apiNetworkThenCache]).

    The browser is the environment.  [localStorage] is a finite map from
    keys to text, the network is an oracle that answers each [fetch], the
    clock is an argument, and every effect the page has on the outside
    (a [fetch], a storage write, a toast, a navigation) is appended to a
    log carried by the page state, so that statements about what happened,
    how often and in which order are statements about that log. *)

From Stdlib Require Import ZArith String Ascii List.
From stdpp Require Import base option list gmap strings pretty.

Set Warnings "-register-all".
Local Open Scope string_scope.
Local Open Scope Z_scope.
Local Open Scope list_scope.

(** ** JavaScript values

    The values the program handles are the JSON ones; [undefined] is the
    absence of a value ([None] in an [option value]).  Numbers are the
    integers (the only numbers the program produces are clock readings
    and HTTP statuses).  An object keeps its properties in insertion
    order. *)

Inductive value : Type :=
  | VNull
  | VBool (b : bool)
  | VNum (n : Z)
  | VStr (s : string)
  | VArr (elems : list value)
  | VObj (props : list (string * value)).

Abbreviation object := (list (string * value)).

Module JS.

(** [o.k] on an object. *)
Fixpoint get (k : string) (o : object) : option value :=
  match o with
  | [] => None
  | (k', v) :: o' => if String.eqb k k' then Some v else get k o'
  end.

(** [o[k] = v]: an existing property keeps its place and takes the new
    value, a new one goes last. *)
Fixpoint set (k : string) (v : value) (o : object) : object :=
  match o with
  | [] => [(k, v)]
  | (k', v') :: o' =>
      if String.eqb k k' then (k', v) :: o' else (k', v') :: set k v o'
  end.

(** [{ ...literal, ...src }]: the properties of [src] are assigned, in
    order, onto the object built so far. *)
Definition spread (src : object) (literal : object) : object :=
  fold_left (λ acc kv, set kv.1 kv.2 acc) src literal.

Definition chars (s : string) : list string :=
  (λ c, String c EmptyString) <$> list_ascii_of_string s.

(** The own enumerable properties that [...v] copies: those of an
    object, the indexed elements of an array or of a string, none for
    [undefined], [null], a boolean or a number. *)
Definition own_props (v : option value) : object :=
  match v with
  | Some (VObj o) => o
  | Some (VArr l) => imap (λ i x, (pretty i, x)) l
  | Some (VStr s) => imap (λ i c, (pretty i, VStr c)) (chars s)
  | _ => []
  end.

(** Truthiness, as tested by [if], [&&] and [||]. *)
Definition truthy (v : option value) : bool :=
  match v with
  | None | Some VNull => false
  | Some (VBool b) => b
  | Some (VNum n) => negb (n =? 0)
  | Some (VStr s) => negb (String.eqb s "")
  | Some (VArr _) | Some (VObj _) => true
  end.

(** [typeof v !== "string"]. *)
Definition not_a_string (v : option value) : bool :=
  match v with Some (VStr _) => false | _ => true end.

(** String conversion, as performed by a template literal. *)
Fixpoint ToString (v : value) : string :=
  match v with
  | VNull => "null"
  | VBool true => "true"
  | VBool false => "false"
  | VNum n => pretty n
  | VStr s => s
  | VArr l =>
      String.concat ","
        (map (λ x, match x with VNull => "" | _ => ToString x end) l)
  | VObj _ => "[object Object]"
  end.

Definition interpolate (v : option value) : string :=
  match v with None => "undefined" | Some x => ToString x end.

(** [s.includes(sub)]. *)
Fixpoint includes (sub s : string) : bool :=
  String.prefix sub s ||
  match s with
  | EmptyString => false
  | String _ s' => includes sub s'
  end.

(** [s.startsWith(p)]. *)
Definition startsWith (p s : string) : bool := String.prefix p s.

(** [s.replace(/\/$/, '')]: one slash at the end of [s] is dropped. *)
Fixpoint strip_trailing_slash (s : string) : string :=
  match s with
  | EmptyString => EmptyString
  | String c EmptyString => if Ascii.eqb c "/" then EmptyString else s
  | String c s' => String c (strip_trailing_slash s')
  end.

(** [v === s], for a string literal [s]. *)
Definition is_string (s : string) (v : option value) : bool :=
  match v with
  | Some (VStr s') => String.eqb s' s
  | _ => false
  end.

(** [v !== 0]. *)
Definition is_not_zero (v : option value) : bool :=
  match v with
  | Some (VNum 0) => false
  | _ => true
  end.

End JS.

(** ** JSON text *)

Module JSON.

Definition quote : string := String "034"%char EmptyString.

Definition hex_digit (n : N) : ascii :=
  if (n <? 10)%N then ascii_of_N (48 + n) else ascii_of_N (87 + n).

(** How [JSON.stringify] writes one character of a string. *)
Definition escape (c : ascii) : string :=
  let n := N_of_ascii c in
  if (n =? 34)%N then "\" +:+ quote
  else if (n =? 92)%N then "\\"
  else if (n =? 8)%N then "\b"
  else if (n =? 12)%N then "\f"
  else if (n =? 10)%N then "\n"
  else if (n =? 13)%N then "\r"
  else if (n =? 9)%N then "\t"
  else if (n <? 32)%N then
    "\u00" +:+ String (hex_digit (n / 16)) (String (hex_digit (n mod 16)) "")
  else String c "".

Definition quoted (s : string) : string :=
  quote +:+ String.concat "" (escape <$> list_ascii_of_string s) +:+ quote.

(** [JSON.stringify(v)]. *)
Fixpoint stringify (v : value) : string :=
  match v with
  | VNull => "null"
  | VBool true => "true"
  | VBool false => "false"
  | VNum n => pretty n
  | VStr s => quoted s
  | VArr l => "[" +:+ String.concat "," (map stringify l) +:+ "]"
  | VObj o =>
      "{" +:+
      String.concat ","
        (map (λ kv, quoted (fst kv) +:+ ":" +:+ stringify (snd kv)) o)
      +:+ "}"
  end.

End JSON.

(** A piece of text held by the platform: a storage cell, a response
    body.  Text that the program reads back with [JSON.parse] is kept as
    the value it denotes: [Json v] is the text [JSON.stringify v], and
    parsing it gives [v] back.  [Raw s] is any other text, which
    [JSON.parse] rejects with a [SyntaxError]. *)
Inductive text : Type :=
  | Raw (s : string)
  | Json (v : value).

Definition text_string (t : text) : string :=
  match t with
  | Raw s => s
  | Json v => JSON.stringify v
  end.

(** [JSON.stringify(v)] and [JSON.parse(t)], where the result is kept by
    the platform or comes from it: [text_string (JSON_stringify v)] is
    [JSON.stringify v]. *)
Definition JSON_stringify (v : value) : text := Json v.

Definition JSON_parse (t : text) : option value :=
  match t with
  | Json v => Some v
  | Raw _ => None
  end.

(** The result of [getItem] is [null] or a string; a string is falsy
    when it is empty. *)
Definition text_truthy (t : option text) : bool :=
  match t with
  | None => false
  | Some (Raw s) => negb (String.eqb s "")
  | Some (Json _) => true
  end.

(** [t || fallback]. *)
Definition text_or (t : option text) (fallback : text) : text :=
  match t with
  | Some x => if text_truthy t then x else fallback
  | None => fallback
  end.

(** ** The platform seen from the page *)

(** An HTTP response: its status, its content type, its body, and
    whether its [Vary] header names every header ([Vary: *]), which is
    all that the caches ask of the other headers.  [ok] is derived from
    the status, as the Fetch API does. *)
Record Response : Type := mkResponseWith {
  status : Z;
  content_type : option string;
  body : text;
  vary_all : bool
}.

(** A response that does not vary on everything. *)
Definition mkResponse (status : Z) (content_type : option string) (body : text)
    : Response :=
  mkResponseWith status content_type body false.

Definition ok (r : Response) : bool := (200 <=? status r) && (status r <=? 299).

(** What [await fetch(...)] gives: a response, whatever its status, or a
    rejection when no response could be obtained (a transport error). *)
Inductive FetchResult : Type :=
  | Resp (r : Response)
  | NetError (message : string).

(** What an [async] function gives its caller. *)
Inductive outcome (A : Type) : Type :=
  | Resolved (a : A)
  | Rejected (error : string).
Arguments Resolved {A} a.
Arguments Rejected {A} error.

(** The effects of the page on the outside, in the order they happen. *)
Inductive effect : Type :=
  | EFetch (url : string) (config : object)
  | ESetItem (key : string) (t : text)
  | ERemoveItem (key : string)
  | EShowMessage (message : string) (duration : Z)
  | ENavigate (href : string)
  | ESyncRegister (tag : string).

Definition is_storage_write (e : effect) : bool :=
  match e with
  | ESetItem _ _ | ERemoveItem _ => true
  | _ => false
  end.

Definition is_fetch (e : effect) : bool :=
  match e with
  | EFetch _ _ => true
  | _ => false
  end.

(** A callback attached to the promise [navigator.serviceWorker.ready].
    The ones of the page all ask the registration for a sync tag:
    [reg => reg.sync.register(tag).catch(() => {})]. *)
Inductive ready_callback : Type :=
  | RegisterSync (tag : string).

(** The state of the page: the origin's [localStorage], the fields of
    [window.App], the location, whether the platform offers background
    sync, the log of effects, and the callbacks that wait for
    [navigator.serviceWorker.ready], in the order they were attached.
    A callback runs after the code that attached it has returned, and
    only once a worker is active. *)
Record page : Type := mkPage {
  localStorage : gmap string text;
  currentUser : value;
  location_href : string;
  syncSupported : bool;
  log : list effect;
  whenReady : list ready_callback
}.

Definition emit (e : effect) (p : page) : page :=
  mkPage (localStorage p) (currentUser p) (location_href p) (syncSupported p)
    (log p ++ [e]) (whenReady p).

Definition getItem (key : string) (p : page) : option text :=
  localStorage p !! key.

Definition setItem (key : string) (t : text) (p : page) : page :=
  emit (ESetItem key t)
    (mkPage (<[key := t]> (localStorage p)) (currentUser p) (location_href p)
       (syncSupported p) (log p) (whenReady p)).

Definition removeItem (key : string) (p : page) : page :=
  emit (ERemoveItem key)
    (mkPage (delete key (localStorage p)) (currentUser p) (location_href p)
       (syncSupported p) (log p) (whenReady p)).

Definition set_currentUser (u : value) (p : page) : page :=
  mkPage (localStorage p) u (location_href p) (syncSupported p) (log p)
    (whenReady p).

Definition navigate (href : string) (p : page) : page :=
  emit (ENavigate href)
    (mkPage (localStorage p) (currentUser p) href (syncSupported p) (log p)
       (whenReady p)).

(** [navigator.serviceWorker.ready.then(callback)]: the callback is
    kept until the promise is fulfilled. *)
Definition attach_ready (callback : ready_callback) (p : page) : page :=
  mkPage (localStorage p) (currentUser p) (location_href p) (syncSupported p)
    (log p) (whenReady p ++ [callback]).

(** One callback runs: the registration is asked for the tag.  What
    the registration answers is swallowed. *)
Definition run_ready (p : page) (callback : ready_callback) : page :=
  match callback with
  | RegisterSync tag => emit (ESyncRegister tag) p
  end.

(** A worker is active: [navigator.serviceWorker.ready] is fulfilled
    and the callbacks that wait for it run, in the order they were
    attached.  Where no worker ever becomes active this never
    happens. *)
Definition serviceWorkerReady (p : page) : page :=
  fold_left run_ready (whenReady p)
    (mkPage (localStorage p) (currentUser p) (location_href p) (syncSupported p)
       (log p) []).

(** [await fetch(url, config)] against the oracle's answer. *)
Definition fetch (answer : FetchResult) (url : string) (config : object)
    (p : page) : FetchResult * page :=
  (answer, emit (EFetch url config) p).

(** A callback handed to [setTimeout]; the ones of the functions below
    all navigate: [setTimeout(() => (window.location.href = href), delay)]. *)
Inductive timer : Type :=
  | NavigateAfter (delay : Z) (href : string).

(** The connectivity banner, [#status-message]: whether it has the
    class [offline], and its text. *)
Record banner : Type := mkBanner {
  offline_class : bool;
  textContent : string
}.

(** The form controls of the document: [document.getElementById(id)
    .value], for the controls the document has.  Where the document
    has no element of that id, [getElementById] gives [null] and
    reading its [value] throws a [TypeError]. *)
Abbreviation form := (string → option string).

(** ** [window.App] *)

Module App.

Definition apiBaseUrl : string := "https://ciudad-conectada.onrender.com/api".

(** [showMessage(text, duration = 3000)]: the toast. *)
Definition showMessage (message : string) (duration : Z) (p : page) : page :=
  emit (EShowMessage message duration) p.

Definition logout (p : page) : page :=
  let p := removeItem "authToken" p in
  let p := removeItem "currentUser" p in
  let p := set_currentUser VNull p in
  navigate "Login.html" p.

(** The [Authorization] entry that [...(token && {...})] contributes. *)
Definition bearer (token : option text) : object :=
  match token with
  | Some t =>
      if text_truthy token
      then [("Authorization", VStr ("Bearer " +:+ text_string t))]
      else []
  | None => []
  end.

(** The [config] object that [apiCall] passes to [fetch]. *)
Definition apiCall_config (token : option text) (options : object) : object :=
  let config :=
    JS.spread options
      [("method", VStr "GET");
       ("headers",
         VObj (JS.spread (JS.own_props (JS.get "headers" options))
                 (JS.spread (bearer token)
                    [("Content-Type", VStr "application/json")])))] in
  match JS.get "body" config with
  | Some b =>
      if JS.truthy (Some b) && JS.not_a_string (Some b)
      then JS.set "body" (VStr (JSON.stringify b)) config
      else config
  | None => config
  end.

(** The [catch] block of [apiCall]: report, toast, rethrow. *)
Definition apiCall_catch {A} (error : string) (p : page) : outcome A * page :=
  (Rejected error,
   showMessage "Error de conexión. Revisa la consola para más detalles." 5000 p).

Definition apiCall (net : string → object → FetchResult)
    (endpoint : string) (options : object) (p : page) : outcome value * page :=
  let token := getItem "authToken" p in
  let url := apiBaseUrl +:+ endpoint in
  let config := apiCall_config token options in
  let '(answer, p) := fetch (net url config) url config p in
  match answer with
  | Resp response =>
      if negb (ok response) then
        let p := if status response =? 401 then logout p else p in
        let errorText := text_string (body response) in
        apiCall_catch
          ("Error en la API: " +:+ pretty (status response) +:+ " " +:+ errorText)
          p
      else
        let contentType := default "" (content_type response) in
        if JS.includes "application/json" contentType then
          match JSON_parse (body response) with
          | Some v => (Resolved v, p)
          | None => apiCall_catch "SyntaxError" p
          end
        else (Resolved (VStr (text_string (body response))), p)
  | NetError e => apiCall_catch e p
  end.

(** [registerBackgroundSync()]: where the platform offers background
    sync, a callback that asks the worker's registration for the tag is
    attached to [navigator.serviceWorker.ready].  Nothing is registered
    by the call itself: the callback runs later, once a worker is
    active (see [serviceWorkerReady]); a refusal is swallowed and
    nothing of the page depends on the answer. *)
Definition registerBackgroundSync (p : page) : page :=
  if syncSupported p
  then attach_ready (RegisterSync "sync-report-actions") p
  else p.

(** [enqueueSyncAction(action)], at clock reading [now] ([Date.now()]). *)
Definition enqueueSyncAction (now : Z) (action : object) (p : page)
    : outcome unit * page :=
  match JSON_parse (text_or (getItem "syncQueue" p) (Json (VArr []))) with
  | Some (VArr queue) =>
      let queue := (queue ++ [VObj (JS.spread action [("id", VNum now)])]) in
      let p := setItem "syncQueue" (JSON_stringify (VArr queue)) p in
      let p :=
        showMessage "Acción guardada para sincronizar cuando haya conexión."
          3000 p in
      (Resolved (), registerBackgroundSync p)
  | Some _ => (Rejected "TypeError", p)
  | None => (Rejected "SyntaxError", p)
  end.

(** [action.k].  Reading a property of [null] throws; a value that is
    not an object has none of the properties read here. *)
Definition prop (k : string) (action : value) : option (option value) :=
  match action with
  | VNull => None
  | VObj o => Some (JS.get k o)
  | _ => Some None
  end.

(** [x || fallback] on values. *)
Definition or_else (x : option value) (fallback : value) : value :=
  match x with
  | Some v => if JS.truthy x then v else fallback
  | None => fallback
  end.

(** The [url] and [config] the loop body of [processSyncQueue] builds
    for one queued action ([None]: building them threw). *)
Definition replay_request (token : option text) (action : value)
    : option (string * object) :=
  url ← prop "url" action;
  method ← prop "method" action;
  let headers := [("Content-Type", VStr "application/json")] in
  let headers :=
    match token with
    | Some t =>
        if text_truthy token
        then JS.set "Authorization" (VStr ("Bearer " +:+ text_string t)) headers
        else headers
    | None => headers
    end in
  let config :=
    [("method", or_else method (VStr "POST")); ("headers", VObj headers)] in
  body ← prop "body" action;
  let config :=
    match body with
    | Some b =>
        if JS.truthy body
        then JS.set "body" (VStr (JSON.stringify b)) config
        else config
    | None => config
    end in
  Some (apiBaseUrl +:+ JS.interpolate url, config).

(** One iteration of the loop: the [try] block replays the action, the
    [catch] block pushes it onto [failedActions].  [net i] answers the
    [fetch] of the iteration at position [i]. *)
Definition replayAction (net : nat → string → object → FetchResult)
    (i : nat) (action : value) (s : list value * page) : list value * page :=
  let '(failedActions, p) := s in
  match replay_request (getItem "authToken" p) action with
  | Some (url, config) =>
      let '(answer, p) := fetch (net i url config) url config p in
      match answer with
      | Resp response =>
          if negb (ok response)
          then (failedActions ++ [action], p)
          else (failedActions, p)
      | NetError _ => (failedActions ++ [action], p)
      end
  | None => (failedActions ++ [action], p)
  end.

(** The [for ... of] loop, from position [i] on. *)
Fixpoint replayFrom (net : nat → string → object → FetchResult)
    (i : nat) (actions : list value) (s : list value * page)
    : list value * page :=
  match actions with
  | [] => s
  | action :: rest => replayFrom net (S i) rest (replayAction net i action s)
  end.

(** [queue.length === 0] ([None]: reading the length throws).  An array
    and a string have a length; an object has the [length] property it
    was given, if any; a boolean or a number has none. *)
Definition queue_is_empty (queue : value) : option bool :=
  match queue with
  | VNull => None
  | VArr l => Some (length l =? 0)%nat
  | VStr s => Some (String.length s =? 0)%nat
  | VObj o =>
      Some match JS.get "length" o with
           | Some (VNum n) => n =? 0
           | _ => false
           end
  | _ => Some false
  end.

(** The values [for (const action of queue)] goes through ([None]:
    [queue] is not iterable). *)
Definition iterate (queue : value) : option (list value) :=
  match queue with
  | VArr l => Some l
  | VStr s => Some (VStr <$> JS.chars s)
  | _ => None
  end.

(** The last statements of [processSyncQueue], after the loop. *)
Definition finishSync (s : list value * page) : page :=
  let '(failedActions, p) := s in
  let p := setItem "syncQueue" (JSON_stringify (VArr failedActions)) p in
  if (length failedActions =? 0)%nat
  then showMessage "Sincronización completada." 3000 p
  else
    showMessage
      "Algunas acciones no se pudieron sincronizar. Se intentará más tarde."
      4000 p.

Definition processSyncQueue (net : nat → string → object → FetchResult)
    (p : page) : outcome unit * page :=
  match JSON_parse (text_or (getItem "syncQueue" p) (Json (VArr []))) with
  | Some queue =>
      match queue_is_empty queue with
      | Some true => (Resolved (), p)
      | Some false =>
          let p := showMessage "Sincronizando acciones pendientes..." 3000 p in
          match iterate queue with
          | Some actions =>
              (Resolved (), finishSync (replayFrom net 0 actions ([], p)))
          | None => (Rejected "TypeError", p)
          end
      | None => (Rejected "TypeError", p)
      end
  | None => (Rejected "SyntaxError", p)
  end.

(** *** Session *)

(** [restoreCurrentUser()]: [JSON.parse(null)] is [null], and a cell
    that does not parse makes the [catch] block run. *)
Definition restoreCurrentUser (p : page) : page :=
  set_currentUser
    match getItem "currentUser" p with
    | Some t => default VNull (JSON_parse t)
    | None => VNull
    end
    p.

Definition setAuthData (token : string) (user : value) (p : page) : page :=
  let p := setItem "authToken" (Raw token) p in
  let p := setItem "currentUser" (JSON_stringify user) p in
  set_currentUser user p.

(** [login(email, password)].  The promise never rejects: the result is
    the boolean, the page, and the timers that were set. *)
Definition login (net : string → object → FetchResult)
    (email password : string) (p : page) : bool * page * list timer :=
  let '(result, p) :=
    apiCall net "/auth/login"
      [ ("method", VStr "POST");
        ("body", VObj [("email", VStr email); ("password", VStr password)]) ]
      p in
  let failed p := (false, showMessage "Credenciales incorrectas" 3000 p, []) in
  match result with
  | Resolved response =>
      match prop "token" response, prop "user" response with
      | Some token, Some user =>
          if JS.truthy token && JS.truthy user then
            let p := setItem "authToken" (Raw (JS.interpolate token)) p in
            let p :=
              setItem "currentUser" (JSON_stringify (default VNull user)) p in
            let p := set_currentUser (default VNull user) p in
            let p := showMessage "Inicio de sesión exitoso ✔" 2500 p in
            (true, p, [NavigateAfter 1000 "Home.html"])
          else
            (false,
             showMessage "Error: Falta token o usuario en respuesta." 3500 p,
             [])
      | _, _ => failed p
      end
  | Rejected _ => failed p
  end.

(** [handleLoginSubmit(event)], on a document with the form controls
    [fields].  The two fields are read first, outside any [try]. *)
Definition handleLoginSubmit (net : string → object → FetchResult)
    (fields : form) (p : page) : outcome unit * page * list timer :=
  match fields "email", fields "password" with
  | Some email, Some password =>
      let p := showMessage "Iniciando sesión..." 3000 p in
      let '(success, p, timers) := login net email password p in
      if success
      then (Resolved (), showMessage "¡Bienvenido!" 3000 p,
            timers ++ [NavigateAfter 1000 "Home.html"])
      else (Resolved (), p, timers)
  | _, _ => (Rejected "TypeError", p, [])
  end.

Definition registerUser (net : string → object → FetchResult)
    (userData : value) (p : page) : outcome value * page * list timer :=
  let '(result, p) :=
    apiCall net "/Users" [("method", VStr "POST"); ("body", userData)] p in
  match result with
  | Resolved _ =>
      (Resolved (VBool true),
       showMessage "Cuenta creada correctamente. Inicia sesión." 3000 p,
       [NavigateAfter 2000 "Login.html"])
  | Rejected e =>
      (Rejected e, showMessage "Error al registrar usuario." 3000 p, [])
  end.

(** The object [handleRegisterSubmit] sends. *)
Definition userData_of (name lastName email password rol : string) : value :=
  VObj [ ("name", VStr name);
         ("lastName", VStr lastName);
         ("email", VStr email);
         ("password", VStr password);
         ("isAdmin", VBool true);
         ("rol", VStr rol) ].

(** [handleRegisterSubmit(event)], on a document with the form controls
    [fields].  The five fields are read first, outside the [try]; what
    [registerUser] throws is swallowed. *)
Definition handleRegisterSubmit (net : string → object → FetchResult)
    (fields : form) (p : page) : outcome unit * page * list timer :=
  match fields "name", fields "lastName", fields "email", fields "password",
        fields "rol" with
  | Some name, Some lastName, Some email, Some password, Some rol =>
      let userData := userData_of name lastName email password rol in
      let p := showMessage "Creando cuenta..." 3000 p in
      let '(result, p, timers) := registerUser net userData p in
      match result with
      | Resolved result =>
          match prop "success" result with
          | Some success =>
              if JS.truthy success then
                match prop "autoLogin" result with
                | Some autoLogin =>
                    if JS.truthy autoLogin
                    then (Resolved (),
                          showMessage "¡Cuenta creada e iniciada sesión!" 3000 p,
                          timers ++ [NavigateAfter 1000 "Home.html"])
                    else (Resolved (),
                          showMessage
                            "¡Cuenta creada! Ahora puedes iniciar sesión." 3000 p,
                          timers ++ [NavigateAfter 2000 "Login.html"])
                | None => (Resolved (), p, timers)
                end
              else (Resolved (), p, timers)
          | None => (Resolved (), p, timers)
          end
      | Rejected _ => (Resolved (), p, timers)
      end
  | _, _, _, _, _ => (Rejected "TypeError", p, [])
  end.

(** [checkAuthStatus()], on the page whose [window.location.pathname] is
    [path]. *)
Definition checkAuthStatus (path : string) (p : page) : bool * page :=
  let token := getItem "authToken" p in
  if negb (text_truthy token) && negb (JS.includes "Login.html" path)
     && negb (JS.includes "RegistrarUsuario.html" path)
  then (false, navigate "Login.html" p)
  else if text_truthy token
          && (JS.includes "Login.html" path
              || JS.includes "RegistrarUsuario.html" path)
  then (false, navigate "Home.html" p)
  else (true, p).

(** *** Changing the status of a report *)

(** The [nextStatus] of [handleStatusChange]. *)
Definition nextStatus (currentStatus : string) : string :=
  if String.eqb currentStatus "Enviado" then "En Progreso"
  else if String.eqb currentStatus "En Progreso" then "Resuelto"
  else "Resuelto".

(** The action and the options of a status change. *)
Definition status_request (nextStatus : string) : object :=
  [("method", VStr "PUT"); ("body", VObj [("estado", VStr nextStatus)])].

(** [handleStatusChange()], at clock reading [now], with
    [navigator.onLine], the [id] parameter of the location and the
    element [#report-details-status]: its text, if the page has the
    element.  With an id, the text is read before anything else is
    done and outside the [try] block, so on a page without the element
    the call fails there.  The result is the text written back to the
    element, if any. *)
Definition handleStatusChange (net : string → object → FetchResult)
    (now : Z) (onLine : bool) (reportId : option string)
    (statusElement : option string) (p : page)
    : outcome (option string) * page :=
  match reportId with
  | Some id =>
      if String.eqb id "" then
        (Resolved None, showMessage "ID de reporte no encontrado." 3000 p)
      else
        match statusElement with
        | None => (Rejected "TypeError", p)
        | Some currentStatus =>
            let nextStatus := nextStatus currentStatus in
            let url := "/Reports/" +:+ id +:+ "/estado" in
            if negb onLine then
              let '(queued, p) :=
                enqueueSyncAction now
                  (("url", VStr url) :: status_request nextStatus) p in
              match queued with
              | Resolved _ =>
                  (Resolved (Some nextStatus),
                   showMessage
                     "Estado guardado offline ✔ Se sincronizará cuando vuelva el internet."
                     3000 p)
              | Rejected e => (Rejected e, p)
              end
            else
              let '(result, p) := apiCall net url (status_request nextStatus) p in
              match result with
              | Resolved _ =>
                  (Resolved (Some nextStatus),
                   showMessage "Estado actualizado ✔" 3000 p)
              | Rejected _ =>
                  (Resolved None, showMessage "Error al cambiar estado" 3000 p)
              end
        end
  | None => (Resolved None, showMessage "ID de reporte no encontrado." 3000 p)
  end.

(** *** What starts a drain *)

(** The listener of [navigator.serviceWorker]'s [message] event, given
    [event.data]. *)
Definition onMessage (net : nat → string → object → FetchResult)
    (data : option value) (p : page) : page :=
  match data with
  | Some d =>
      if JS.truthy data then
        match prop "type" d with
        | Some type =>
            if JS.is_string "SYNC_NOW" type
            then (processSyncQueue net p).2
            else p
        | None => p
        end
      else p
  | None => p
  end.

(** [updateOnlineStatus()] of [setupOnlineOfflineBanner], given
    [navigator.onLine] and the element [#status-message], if the page
    has one. *)
Definition updateOnlineStatus (net : nat → string → object → FetchResult)
    (onLine : bool) (statusMessage : option banner) (p : page)
    : outcome banner * page :=
  match statusMessage with
  | Some _ =>
      if onLine
      then (Resolved (mkBanner false ""), (processSyncQueue net p).2)
      else (Resolved (mkBanner true "Sin conexión a internet"), p)
  | None => (Rejected "TypeError", p)
  end.

(** *** Helpers *)

Definition getStatusClass (estado : option value) : string :=
  if JS.is_string "Resuelto" estado then "resolved"
  else if JS.is_string "En Progreso" estado then "progress"
  else "pending".

(** What the replacer of [escapeHtml] gives for one character that the
    pattern matches, and the character itself otherwise. *)
Definition entity (c : ascii) : string :=
  if Ascii.eqb c "&" then "&amp;"
  else if Ascii.eqb c "<" then "&lt;"
  else if Ascii.eqb c ">" then "&gt;"
  else if Ascii.eqb c "034" then "&quot;"
  else if Ascii.eqb c "'" then "&#39;"
  else if Ascii.eqb c "/" then "&#x2F;"
  else if Ascii.eqb c "`" then "&#x60;"
  else if Ascii.eqb c "=" then "&#x3D;"
  else String c "".

Definition escapeHtml (unsafe : option value) : string :=
  if negb (JS.truthy unsafe) && JS.is_not_zero unsafe then ""
  else String.concat "" (entity <$> list_ascii_of_string (JS.interpolate unsafe)).

End App.

(** ** The service worker

    The revision with the [activate] handler and [apiNetworkThenCache]
    (cache generations [cc-cache-v5] and [cc-api-cache-v5]). *)

Module SW.

Definition CACHE_NAME : string := "cc-cache-v5".
Definition API_CACHE : string := "cc-api-cache-v5".

Definition STATIC_ASSETS : list string :=
  [ "/";
    "/Home.html";
    "/DetalleReporte.html";
    "/Perfil.html";
    "/Notificaciones.html";
    "/Login.html";
    "/RegistrarUsuario.html";
    "/app.css";
    "/app.js";
    "/icons/icono_144x144.png";
    "https://fonts.googleapis.com/css2?family=Public+Sans:wght@400;500;600;700;800;900&display=swap";
    "https://fonts.googleapis.com/css2?family=Material+Symbols+Outlined" ].

Definition API_BASE : string := "https://ciudad-conectada.onrender.com/api".

(** [new URL(request.url)], with the two components the handler reads. *)
Record URL : Type := mkURL {
  href : string;
  pathname : string
}.

Record Request : Type := mkRequest {
  method : string;
  url : URL
}.

(** The identity under which a cache files a response: method and URL. *)
Abbreviation identity := (string * string)%type.

Definition identity_of (request : Request) : identity :=
  (method request, href (url request)).

(** The identity of [caches.match(path)]: a [GET] of the path resolved
    against the worker's own origin. *)
Definition identity_of_path (origin path : string) : identity :=
  ("GET", origin +:+ path).

(** [CacheStorage]: the named caches, in order of creation. *)
Abbreviation Cache := (gmap identity Response).
Abbreviation CacheStorage := (list (string * Cache)).

(** [caches.match(...)]: the first cache, in order of creation, that
    holds an entry decides. *)
Fixpoint caches_match (key : identity) (cs : CacheStorage) : option Response :=
  match cs with
  | [] => None
  | (_, c) :: rest =>
      match c !! key with
      | Some r => Some r
      | None => caches_match key rest
      end
  end.

(** The cache of a given name, if it exists. *)
Fixpoint cache_named (name : string) (cs : CacheStorage) : option Cache :=
  match cs with
  | [] => None
  | (n, c) :: rest => if String.eqb n name then Some c else cache_named name rest
  end.

(** [caches.open(name)] creates the cache when it does not exist. *)
Definition caches_open (name : string) (cs : CacheStorage) : CacheStorage :=
  match cache_named name cs with
  | Some _ => cs
  | None => (cs ++ [(name, ∅)])
  end.

(** A response the caches take: not a partial one (status 206) and not
    one that varies on everything. *)
Definition storable (r : Response) : bool :=
  negb (status r =? 206) && negb (vary_all r).

(** Whether the platform's [Cache.put] takes a request and a response:
    it refuses, with a [TypeError], a request whose method is not
    [GET], and a response that is partial or varies on everything.
    (It also refuses a URL that is neither [http] nor [https]; the
    worker is served from such an origin, and the API base and the
    absolute entries of the manifest are [https].) *)
Definition put_accepted (key : identity) (r : Response) : bool :=
  String.eqb key.1 "GET" && storable r.

(** [cache.put(request, response)] on the cache called [name].  A pair
    the platform refuses leaves the cache as it is; the worker never
    awaits a put, so the refusal is not seen by the code that follows. *)
Definition cache_put (name : string) (key : identity) (r : Response)
    (cs : CacheStorage) : CacheStorage :=
  if put_accepted key r
  then (λ nc, if String.eqb nc.1 name then (nc.1, <[key := r]> nc.2) else nc)
         <$> cs
  else cs.

Definition caches_keys (cs : CacheStorage) : list string := cs.*1.

Definition caches_delete (name : string) (cs : CacheStorage) : CacheStorage :=
  filter (λ nc, nc.1 ≠ name) cs.

(** The worker's world: the cache storage of its origin and the
    requests it has sent to the network (method and URL), oldest
    first. *)
Record state : Type := mkState {
  caches : CacheStorage;
  network : list identity
}.

(** [fetch(request)] from inside the worker. *)
Definition fetch (net : Request → FetchResult) (request : Request) (st : state)
    : FetchResult * state :=
  (net request, mkState (caches st) (network st ++ [identity_of request])).

(** The URL [cache.addAll] fetches for an entry of the manifest: the
    entry itself when it is absolute, the entry resolved against the
    worker's origin when it is a path. *)
Definition asset_url (origin asset : string) : string :=
  if JS.startsWith "/" asset then origin +:+ asset else asset.

(** What [cache.addAll] obtains for one URL; nothing when the fetch
    fails, or the response is not ok, or is one the caches do not
    take. *)
Definition asset_entry (net : string → FetchResult) (u : string)
    : option (identity * Response) :=
  match net u with
  | Resp r => if ok r && storable r then Some (("GET", u), r) else None
  | NetError _ => None
  end.

(** The [install] handler: the static generation is opened and
    [cache.addAll(STATIC_ASSETS)] fills it with the whole manifest, or,
    when one entry could not be obtained, with nothing. *)
Definition onInstall (origin : string) (net : string → FetchResult) (st : state)
    : state :=
  let cs := caches_open CACHE_NAME (caches st) in
  let urls := asset_url origin <$> STATIC_ASSETS in
  let sent := network st ++ ((λ u, ("GET", u)) <$> urls) in
  match mapM (asset_entry net) urls with
  | Some entries =>
      mkState
        (fold_left (λ cs kr, cache_put CACHE_NAME kr.1 kr.2 cs) entries cs)
        sent
  | None => mkState cs sent
  end.

(** The [activate] handler: every cache whose name is not one of the
    two current generations is deleted.  (The handler then claims the
    open pages, which no cache depends on.) *)
Definition onActivate (st : state) : state :=
  let keys := caches_keys (caches st) in
  let old := filter (λ key, key ≠ CACHE_NAME ∧ key ≠ API_CACHE) keys in
  mkState (fold_left (λ cs key, caches_delete key cs) old (caches st))
    (network st).

(** The body the worker makes up when an API request finds neither
    the network nor a cached answer. *)
Definition offline_body : value :=
  VObj [ ("ok", VBool true);
         ("offline", VBool true);
         ("message", VStr "Datos cargados offline");
         ("data", VArr []) ].

Definition offline_response : Response :=
  mkResponse 200 (Some "application/json") (JSON_stringify offline_body).

Definition apiNetworkThenCache (net : Request → FetchResult)
    (request : Request) (st : state) : FetchResult * state :=
  let '(answer, st) := fetch net request st in
  match answer with
  | Resp networkResponse =>
      let st :=
        if ok networkResponse then
          mkState
            (cache_put API_CACHE (identity_of request) networkResponse
               (caches_open API_CACHE (caches st)))
            (network st)
        else st in
      (Resp networkResponse, st)
  | NetError _ =>
      match caches_match (identity_of request) (caches st) with
      | Some cached => (Resp cached, st)
      | None => (Resp offline_response, st)
      end
  end.

(** The [fetch] handler: what [event.respondWith] is given, for a
    worker served from [origin]. *)
Definition onFetch (origin : string) (net : Request → FetchResult)
    (request : Request) (st : state) : FetchResult * state :=
  let url := url request in
  if bool_decide (pathname url ∈ STATIC_ASSETS) then
    match caches_match (identity_of_path origin (pathname url)) (caches st) with
    | Some res => (Resp res, st)
    | None => fetch net request st
    end
  else if JS.startsWith API_BASE (href url) then
    apiNetworkThenCache net request st
  else
    let '(answer, st) := fetch net request st in
    match answer with
    | Resp r => (Resp r, st)
    | NetError e =>
        match caches_match (identity_of request) (caches st) with
        | Some r => (Resp r, st)
        | None => (NetError e, st)
        end
    end.

(** The worker's own [processSyncQueue()]: the first of the clients
    [self.clients.matchAll()] gives is posted [{type: "SYNC_NOW"}].  The
    result lists the messages posted, each with the client it goes to. *)
Definition processSyncQueue (clientsList : list string)
    : outcome (list (string * value)) :=
  match clientsList with
  | client :: _ => Resolved [(client, VObj [("type", VStr "SYNC_NOW")])]
  | [] => Rejected "TypeError"
  end.

(** The [sync] handler, given [event.tag]. *)
Definition onSync (tag : string) (clientsList : list string)
    : outcome (list (string * value)) :=
  if String.eqb tag "sync-report-actions"
  then processSyncQueue clientsList
  else Resolved [].

End SW.

(** ** The service worker, earlier revision

    The revision with the single cache [reportes-cache-v2]: it has a
    [fetch] handler only and never writes a cache. *)

Module OldSW.

Definition CACHE_NAME : string := "reportes-cache-v2".
Definition API_URL : string := "https://apiciudadconectada.somee.com/api".

Definition STATIC_ASSETS : list string :=
  [ "/";
    "/Home.html";
    "/DetalleReporte.html";
    "/Perfil.html";
    "/Notificaciones.html";
    "/Login.html";
    "/RegistrarUsuario.html";
    "/app.css";
    "/app.js";
    "Logo_CiudadConectada.jpg";
    "https://fonts.googleapis.com/css2?family=Public+Sans:wght@400;500;600;700;800;900&display=swap";
    "https://fonts.googleapis.com/css2?family=Material+Symbols+Outlined" ].

(** [new Response("Offline", {status: 503, ...})]. *)
Definition offline_text : Response :=
  mkResponse 503 (Some "text/plain") (Raw "Offline").

(** The answer made up for an API request. *)
Definition no_connection : Response :=
  mkResponse 503 (Some "application/json")
    (JSON_stringify
       (VObj [("ok", VBool false); ("message", VStr "No connection")])).

(** [fetch(event.request).catch(() => fallback)]. *)
Definition fetch_or (fallback : Response) (net : SW.Request → FetchResult)
    (request : SW.Request) (st : SW.state) : FetchResult * SW.state :=
  let '(answer, st) := SW.fetch net request st in
  match answer with
  | Resp r => (Resp r, st)
  | NetError _ => (Resp fallback, st)
  end.

(** The [fetch] handler: what [event.respondWith] is given. *)
Definition onFetch (origin : string) (net : SW.Request → FetchResult)
    (request : SW.Request) (st : SW.state) : FetchResult * SW.state :=
  let url := SW.url request in
  let cleanPath := JS.strip_trailing_slash (SW.pathname url) in
  if bool_decide (cleanPath ∈ STATIC_ASSETS) then
    match SW.caches_match (SW.identity_of_path origin cleanPath) (SW.caches st) with
    | Some res => (Resp res, st)
    | None => fetch_or offline_text net request st
    end
  else if JS.startsWith API_URL (SW.href url) then
    fetch_or no_connection net request st
  else fetch_or offline_text net request st.

End OldSW.

(** ** The filter of the reports table *)

(** A row of [#reports-table-body]: the text of its first three
    cells. *)
Record row : Type := mkRow {
  row_type : string;
  row_location : string;
  row_status : string
}.

Section filterReports.
Variable toLowerCase : string → string.


End filterReports.

(** ** What the claims speak about *)

(** The persisted queue of a page: what [JSON.parse(localStorage.getItem(
    "syncQueue") || "[]")] reads, when that is an array. *)
Definition readQueue (p : page) : option (list value) :=
  match JSON_parse (text_or (getItem "syncQueue" p) (Json (VArr []))) with
  | Some (VArr q) => Some q
  | _ => None
  end.

(** A queued action is an object, as [enqueueSyncAction] makes them. *)
Definition is_action (a : value) : Prop := ∃ o, a = VObj o.

Definition action_id (a : value) : option value :=
  match a with
  | VObj o => JS.get "id" o
  | _ => None
  end.

(** A replay fails on a response that is not ok and on a transport
    error, alike. *)
Definition is_failure (answer : FetchResult) : bool :=
  match answer with
  | Resp r => negb (ok r)
  | NetError _ => true
  end.

(** The answer the network gives to the replay of [action] at position
    [i], for a page whose stored token is [token]. *)
Definition replay_answer (net : nat → string → object → FetchResult)
    (token : option text) (i : nat) (action : value) : option FetchResult :=
  '(url, config) ← App.replay_request token action;
  Some (net i url config).

Definition replay_failed (net : nat → string → object → FetchResult)
    (token : option text) (i : nat) (action : value) : bool :=
  match replay_answer net token i action with
  | Some answer => is_failure answer
  | None => true
  end.

(** The actions of a queue whose replay fails, in the order of the
    queue; the queue starts at position [i]. *)
Definition failed_of (net : nat → string → object → FetchResult)
    (token : option text) (i : nat) (q : list value) : list value :=
  (filter (λ ia, replay_failed net token ia.1 ia.2 = true)
     (zip (seq i (length q)) q)).*2.

(** The effects a run added to the log. *)
Definition effects_since (p p' : page) : list effect :=
  drop (length (log p)) (log p').

(** A sequence of [enqueueSyncAction] calls, each with the clock
    reading at which it is made. *)
Definition enqueueAll (calls : list (Z * object)) (p : page) : page :=
  fold_left (λ p c, (App.enqueueSyncAction c.1 c.2 p).2) calls p.

(** The entry that a call to [enqueueSyncAction] adds. *)
Definition entry_of (c : Z * object) : value :=
  VObj (JS.spread c.2 [("id", VNum c.1)]).

Definition queue_ids (p : page) : list (option value) :=
  action_id <$> default [] (readQueue p).

(** The storage writes among the effects a run added. *)
Definition storage_writes (p p' : page) : list effect :=
  filter (λ e, is_storage_write e = true) (effects_since p p').

(** ** Sample data

    The status change of the specification's scenario, and a page that
    holds two such actions. *)

Definition estado_action (report : string) (estado : string) : object :=
  [ ("url", VStr ("/Reports/" +:+ report +:+ "/estado"));
    ("method", VStr "PUT");
    ("body", VObj [("estado", VStr estado)]) ].

Definition blank_page : page := mkPage ∅ VNull "Home.html" true [] [].

Definition sample_calls : list (Z * object) :=
  [ (1700000000000, estado_action "42" "Resuelto");
    (1700000000250, estado_action "7" "En Progreso") ].

Definition sample_page : page :=
  mkPage {[ "authToken" := Raw "eyJhbGciOiJIUzI1NiJ9.e30.abc";
            "syncQueue" := JSON_stringify (VArr (entry_of <$> sample_calls)) ]}
    VNull "DetalleReporte.html" true [] [].

(** Two calls made within the same millisecond. *)
Definition same_ms_calls : list (Z * object) :=
  [ (1700000000000, estado_action "42" "Resuelto");
    (1700000000000, estado_action "7" "En Progreso") ].

(** A network on which every request is answered with the given
    status. *)
Definition net_status (st : Z) : nat → string → object → FetchResult :=
  λ _ _ _, Resp (mkResponse st (Some "application/json") (Json (VObj []))).

(** The same, for the single [fetch] of an [apiCall]. *)
Definition api_status (st : Z) : string → object → FetchResult :=
  λ _ _, Resp (mkResponse st (Some "application/json") (Json (VArr []))).

(** A call that passes a header of its own. *)
Definition traced_options : object := [("headers", VObj [("X-Trace", VStr "1")])].

(** A network that answers the first replay with 200 and is unreachable
    afterwards. *)
Definition net_first_only : nat → string → object → FetchResult :=
  λ i _ _,
    match i with
    | O => Resp (mkResponse 200 (Some "application/json") (Json (VObj [])))
    | _ => NetError "TypeError: Failed to fetch"
    end.

(** ** The service worker: what the claims speak about *)

(** The body of an answer, when there is one. *)
Definition response_body (answer : FetchResult) : option text :=
  match answer with
  | Resp r => Some (body r)
  | NetError _ => None
  end.

(** Every entry of every cache satisfies [Q], a property of the name of
    the cache, the identity of the request and the response. *)
Definition holds_only (Q : string → SW.identity → Response → Prop)
    (cs : SW.CacheStorage) : Prop :=
  ∀ name c key r, (name, c) ∈ cs → c !! key = Some r → Q name key r.

(** Every response held by any cache is a successful one. *)
Definition only_ok (cs : SW.CacheStorage) : Prop :=
  holds_only (λ _ _ r, ok r = true) cs.


(** Every cache other than the static generation holds entries for URLs
    under the API base only. *)
Definition api_keys_only (cs : SW.CacheStorage) : Prop :=
  holds_only
    (λ name key _, name ≠ SW.CACHE_NAME →
                   JS.startsWith SW.API_BASE key.2 = true) cs.

(** [Q] covers what the worker itself stores: the ok
    responses it puts in the API generation for requests under the API
    base, and the ok responses it puts in the static generation, where
    the platform takes them. *)
Definition covers (Q : string → SW.identity → Response → Prop) : Prop :=
  (∀ key r, ok r = true → SW.put_accepted key r = true →
            JS.startsWith SW.API_BASE key.2 = true →
            Q SW.API_CACHE key r) ∧
  (∀ key r, ok r = true → SW.put_accepted key r = true →
            Q SW.CACHE_NAME key r).

(** One event handled by the worker: an installation, an activation, or
    the interception of a request, under some behaviour of the
    network. *)
Inductive handles : SW.state → SW.state → Prop :=
  | handles_install origin net st : handles st (SW.onInstall origin net st)
  | handles_activate st : handles st (SW.onActivate st)
  | handles_fetch origin net request st :
      handles st (SW.onFetch origin net request st).2.

(** Sample requests and cache storages. *)
Definition reports_request : SW.Request :=
  SW.mkRequest "GET"
    (SW.mkURL "https://ciudad-conectada.onrender.com/api/Reports" "/api/Reports").



Definition home_request : SW.Request :=
  SW.mkRequest "GET"
    (SW.mkURL "https://ciudad.example/Home.html" "/Home.html").

Definition home_page : Response :=
  mkResponse 200 (Some "text/html") (Raw "<!doctype html><title>Inicio</title>").

Definition old_home_page : Response :=
  mkResponse 200 (Some "text/html") (Raw "<!doctype html><title>Antes</title>").

Definition reports_page : Response :=
  mkResponse 200 (Some "application/json") (Json (VArr [VObj [("id", VNum 42)]])).

Definition server_error : Response :=
  mkResponse 500 (Some "text/plain") (Raw "Internal Server Error").

Definition installed : SW.state :=
  SW.mkState
    [ (SW.CACHE_NAME,
       {[ SW.identity_of_path "https://ciudad.example" "/Home.html" := home_page ]}) ]
    [].

Definition upgraded : SW.state :=
  SW.mkState
    [ ("reportes-cache-v2", ∅);
      ("cc-cache-v4",
       {[ SW.identity_of_path "https://ciudad.example" "/Home.html" := old_home_page ]});
      (SW.CACHE_NAME,
       {[ SW.identity_of_path "https://ciudad.example" "/Home.html" := home_page ]});
      (SW.API_CACHE, {[ SW.identity_of reports_request := reports_page ]}) ]
    [].

Definition offline : SW.Request → FetchResult :=
  λ _, NetError "TypeError: Failed to fetch".


(** ** The rest of the page and of the worker: what is stated about them *)

(** The fetches among the effects a run added. *)
Definition fetches_since (p p' : page) : list effect :=
  filter (λ e, is_fetch e = true) (effects_since p p').

(** The requests a drain owes a queue, in the order of the queue: for
    each action, the [fetch] of the [url] and [config] built from it
    (none for an action from which they cannot be built). *)
Definition requests_of (token : option text) (q : list value) : list effect :=
  omap (λ a, (λ uc, EFetch uc.1 uc.2) <$> App.replay_request token a) q.

(** [action.url], for an action that is an object. *)
Definition action_url (a : value) : option value :=
  match a with
  | VObj o => JS.get "url" o
  | _ => None
  end.

(** What a callback waiting for the worker does when it runs. *)
Definition registration_of (callback : ready_callback) : effect :=
  match callback with
  | RegisterSync tag => ESyncRegister tag
  end.

Definition is_sync_register (e : effect) : bool :=
  match e with
  | ESyncRegister _ => true
  | _ => false
  end.

(** The [setItem] calls among the effects a run added. *)
Definition is_setItem (e : effect) : bool :=
  match e with
  | ESetItem _ _ => true
  | _ => false
  end.

(** The login and the registration page, as [checkAuthStatus] tells
    them from the others. *)
Definition on_auth_page (path : string) : bool :=
  JS.includes "Login.html" path || JS.includes "RegistrarUsuario.html" path.

Fixpoint has_slash (s : string) : bool :=
  match s with
  | EmptyString => false
  | String c s' => Ascii.eqb c "/" || has_slash s'
  end.

(** The directory of a path: the path up to its last slash, the slash
    included. *)
Fixpoint dirname (s : string) : string :=
  match s with
  | EmptyString => EmptyString
  | String c s' => if has_slash s then String c (dirname s') else EmptyString
  end.

(** The path of the page that [window.location.href = href] leads to
    from the page at [path], for an [href] that is a file name, as
    [Home.html] and [Login.html] are: the reference is resolved against
    the address of the page, so the file name takes the place of the
    last segment of the path. *)
Definition landing (path href : string) : string := dirname path +:+ href.

(** Every end of the string that is not empty has a slash in it: the
    string is empty or ends with a slash. *)
Fixpoint ends_with_slash (s : string) : bool :=
  match s with
  | EmptyString => true
  | String c s' => has_slash s && ends_with_slash s'
  end.

(** The [Authorization] header of a [config], if it has one. *)
Definition authorization (config : object) : option value :=
  match JS.get "headers" config with
  | Some (VObj headers) => JS.get "Authorization" headers
  | _ => None
  end.

(** The network as the page sees it through a worker whose [fetch]
    handler is [handler] and whose caches are those of [st].
    [request_of] is the platform's: the request the worker is handed
    for a [fetch(url, config)] of the page, with the URL parsed and
    written out again (dot segments resolved, among other things) and
    the method normalised. *)
Definition through
    (handler : SW.Request → SW.state → FetchResult * SW.state)
    (request_of : string → object → SW.Request) (st : SW.state)
    : nat → string → object → FetchResult :=
  λ _ url config, (handler (request_of url config) st).1.

(** What the platform hands the worker for a URL under the API base
    that has no dot segment, query or fragment: the URL as it is, its
    path the part after the origin, and the method of the [config]. *)
Definition plain_api_request (url : string) (config : object) : SW.Request :=
  SW.mkRequest (JS.interpolate (JS.get "method" config))
    (SW.mkURL url
       ("/api" +:+
        String.substring (String.length App.apiBaseUrl) (String.length url) url)).

(** The characters [escapeHtml] replaces. *)
Definition html_special (c : ascii) : bool :=
  Ascii.eqb c "&" || Ascii.eqb c "<" || Ascii.eqb c ">" || Ascii.eqb c "034"
  || Ascii.eqb c "'" || Ascii.eqb c "/" || Ascii.eqb c "`" || Ascii.eqb c "=".

(** The registration form, filled in. *)
Definition register_form : form :=
  λ id,
    if String.eqb id "name" then Some "Ana"
    else if String.eqb id "lastName" then Some "Limón"
    else if String.eqb id "email" then Some "ana@example.org"
    else if String.eqb id "password" then Some "s3creta"
    else if String.eqb id "rol" then Some "ciudadano"
    else None.

(** A login answer: a JSON body with a token and a user. *)
Definition login_answer (token : string) (user : value) : Response :=
  mkResponse 200 (Some "application/json; charset=utf-8")
    (Json (VObj [("token", VStr token); ("user", user)])).

Definition sample_user : value :=
  VObj [ ("id", VNum 7); ("name", VStr "Ana"); ("lastName", VStr "Ruiz");
         ("email", VStr "ana@example.org"); ("rol", VStr "admin") ].

Definition sample_rows : list row :=
  [ mkRow "Agua" "Centro" "Enviado";
    mkRow "Luz" "Norte" "Resuelto" ].

(** ** The page: lemmas *)

Lemma getItem_emit key e p : getItem key (emit e p) = getItem key p.
Proof. reflexivity. Qed.

Lemma getItem_showMessage key m d p :
  getItem key (App.showMessage m d p) = getItem key p.
Proof. reflexivity. Qed.

Lemma getItem_setItem key t p : getItem key (setItem key t p) = Some t.
Proof. unfold getItem, setItem; simpl. apply lookup_insert_eq. Qed.

Lemma getItem_setItem_ne key key' t p :
  key ≠ key' → getItem key' (setItem key t p) = getItem key' p.
Proof. intros Hne. unfold getItem, setItem; simpl. by apply lookup_insert_ne. Qed.

Lemma readQueue_stored q p :
  readQueue (setItem "syncQueue" (JSON_stringify (VArr q)) p) = Some q.
Proof. unfold readQueue. by rewrite getItem_setItem. Qed.

Lemma readQueue_parse p q :
  readQueue p = Some q →
  JSON_parse (text_or (getItem "syncQueue" p) (Json (VArr []))) = Some (VArr q).
Proof.
  unfold readQueue. destruct (JSON_parse _) as [[]|]; congruence.
Qed.

Lemma readQueue_storage p p' :
  localStorage p' = localStorage p → readQueue p' = readQueue p.
Proof. unfold readQueue, getItem. by intros ->. Qed.

(** An action that is an object always yields a request. *)
Lemma replay_request_action token a :
  is_action a → ∃ url config, App.replay_request token a = Some (url, config).
Proof. intros [o ->]. unfold App.replay_request; simpl. eauto. Qed.

Lemma replay_failed_action net token i a url config :
  App.replay_request token a = Some (url, config) →
  replay_failed net token i a = is_failure (net i url config).
Proof. unfold replay_failed, replay_answer. by intros ->. Qed.

Lemma failed_of_nil net token i : failed_of net token i [] = [].
Proof. reflexivity. Qed.

Lemma failed_of_cons net token i a q :
  failed_of net token i (a :: q) =
  ((if replay_failed net token i a then [a] else []) ++
   failed_of net token (S i) q).
Proof.
  unfold failed_of; simpl. rewrite filter_cons; simpl.
  destruct (replay_failed net token i a); by case_decide.
Qed.

Lemma failed_of_app net token i q1 q2 :
  failed_of net token i (q1 ++ q2) =
  (failed_of net token i q1 ++ failed_of net token (i + length q1) q2).
Proof.
  revert i. induction q1 as [|a q1 IH]; intros i; simpl.
  - by rewrite Nat.add_0_r.
  - rewrite !failed_of_cons, IH, <- app_assoc. do 3 f_equal. lia.
Qed.

(** One iteration: the action is pushed exactly when its replay failed,
    the storage is not touched, and the log grows by at most the
    [fetch]. *)
Lemma replayAction_spec net i a failed p :
  ∃ p',
    App.replayAction net i a (failed, p) =
      ((failed ++ if replay_failed net (getItem "authToken" p) i a
                  then [a] else []), p') ∧
    localStorage p' = localStorage p ∧
    currentUser p' = currentUser p ∧
    ∃ es, log p' = (log p ++ es) ∧ Forall (λ e, is_fetch e = true) es.
Proof.
  unfold App.replayAction, replay_failed, replay_answer.
  destruct (App.replay_request _ a) as [[url config]|]; simpl.
  - eexists (emit (EFetch url config) p).
    split; [|split; [done|split; [done|]]].
    + destruct (net i url config) as [r|e]; simpl; [|done].
      destruct (ok r); simpl; by rewrite ?app_nil_r.
    + exists [EFetch url config]. split; [done|]. by constructor.
  - exists p. split; [done|]. split; [done|]. split; [done|].
    exists []. by rewrite app_nil_r.
Qed.

(** The whole loop: it leaves in [failedActions] the failed actions in
    queue order, never writes the storage, and only fetches. *)
Lemma replayFrom_spec net q : ∀ i failed p,
  ∃ p',
    App.replayFrom net i q (failed, p) =
      ((failed ++ failed_of net (getItem "authToken" p) i q), p') ∧
    localStorage p' = localStorage p ∧
    currentUser p' = currentUser p ∧
    ∃ es, log p' = (log p ++ es) ∧ Forall (λ e, is_fetch e = true) es.
Proof.
  induction q as [|a q IH]; intros i failed p; cbn [App.replayFrom].
  - exists p. rewrite failed_of_nil, app_nil_r. repeat split; try done.
    exists []. by rewrite app_nil_r.
  - destruct (replayAction_spec net i a failed p)
      as (p1 & -> & Hst1 & Hu1 & es1 & Hlog1 & Hes1).
    destruct (IH (S i) (failed ++ if replay_failed net (getItem "authToken" p) i a
                                  then [a] else []) p1)
      as (p2 & -> & Hst2 & Hu2 & es2 & Hlog2 & Hes2).
    exists p2. split; [|split; [congruence|split; [congruence|]]].
    + rewrite failed_of_cons, <- app_assoc.
      unfold getItem. by rewrite Hst1.
    + exists (es1 ++ es2). split.
      * by rewrite Hlog2, Hlog1, <- app_assoc.
      * by apply Forall_app.
Qed.

Lemma replayFrom_app net q1 q2 i s :
  App.replayFrom net i (q1 ++ q2) s =
  App.replayFrom net (i + length q1) q2 (App.replayFrom net i q1 s).
Proof.
  revert i s. induction q1 as [|a q1 IH]; intros i s; cbn [App.replayFrom app length].
  - by rewrite Nat.add_0_r.
  - rewrite IH. by replace (S i + length q1)%nat with (i + S (length q1))%nat by lia.
Qed.

Lemma effects_since_app p p' es :
  log p' = (log p ++ es) → effects_since p p' = es.
Proof. unfold effects_since. intros ->. by rewrite drop_app_length. Qed.

Lemma processSyncQueue_empty net p :
  readQueue p = Some [] → App.processSyncQueue net p = (Resolved (), p).
Proof.
  intros Hq. unfold App.processSyncQueue. by rewrite (readQueue_parse _ _ Hq).
Qed.

(** A drain of a non-empty queue: announce, run the loop, finish. *)
Lemma processSyncQueue_run net p q :
  readQueue p = Some q → q ≠ [] →
  ∃ p2 fetches,
    App.processSyncQueue net p =
      (Resolved (),
       App.finishSync (failed_of net (getItem "authToken" p) 0 q, p2)) ∧
    localStorage p2 = localStorage p ∧
    log p2 =
      (log p ++ EShowMessage "Sincronizando acciones pendientes..." 3000
         :: fetches) ∧
    Forall (λ e, is_fetch e = true) fetches.
Proof.
  intros Hq Hne. unfold App.processSyncQueue.
  rewrite (readQueue_parse _ _ Hq). destruct q as [|a q]; [done|].
  cbn [App.queue_is_empty length Nat.eqb App.iterate].
  set (p0 := App.showMessage _ _ p).
  destruct (replayFrom_spec net (a :: q) 0 [] p0)
    as (p2 & -> & Hst & _ & es & Hlog & Hes).
  exists p2, es. split; [done|]. split; [done|]. split; [|done].
  rewrite Hlog. unfold p0; simpl. by rewrite <- app_assoc.
Qed.

Lemma readQueue_finishSync failed p :
  readQueue (App.finishSync (failed, p)) = Some failed.
Proof.
  unfold App.finishSync.
  destruct (length failed =? 0)%nat;
    (erewrite readQueue_storage; [apply readQueue_stored|done]).
Qed.

Lemma failed_of_sublist net token q : ∀ i, failed_of net token i q `sublist_of` q.
Proof.
  induction q as [|a q IH]; intros i.
  - by rewrite failed_of_nil.
  - rewrite failed_of_cons. destruct (replay_failed net token i a); simpl.
    + by apply sublist_skip.
    + by apply sublist_cons.
Qed.

Lemma elem_of_failed_of net token q : ∀ i a,
  a ∈ failed_of net token i q ↔
  ∃ j, q !! j = Some a ∧ replay_failed net token (i + j) a = true.
Proof.
  induction q as [|b q IH]; intros i a.
  - rewrite failed_of_nil. split; [by intros ?%elem_of_nil|by intros (j & ? & _)].
  - rewrite failed_of_cons, elem_of_app, IH. split.
    + intros [Hin|(j & Hj & Hf)].
      * destruct (replay_failed net token i b) eqn:Hb; [|by apply elem_of_nil in Hin].
        apply list_elem_of_singleton in Hin as ->.
        exists 0%nat. by rewrite Nat.add_0_r.
      * exists (S j). split; [done|]. by replace (i + S j)%nat with (S i + j)%nat by lia.
    + intros ([|j] & Hj & Hf).
      * left. simpl in Hj. injection Hj as ->.
        rewrite Nat.add_0_r in Hf. rewrite Hf. by apply list_elem_of_singleton.
      * right. exists j. split; [done|].
        by replace (S i + j)%nat with (i + S j)%nat by lia.
Qed.

Lemma failed_of_none net token q : ∀ i,
  (∀ j a, q !! j = Some a → replay_failed net token (i + j) a = false) →
  failed_of net token i q = [].
Proof.
  induction q as [|a q IH]; intros i Hall; [done|].
  rewrite failed_of_cons.
  specialize (Hall 0%nat a eq_refl) as Ha. rewrite Nat.add_0_r in Ha. rewrite Ha.
  apply IH. intros j b Hj.
  replace (S i + j)%nat with (i + S j)%nat by lia. by apply Hall.
Qed.

(** The outcome of a drain, whatever the queue. *)
Lemma processSyncQueue_readQueue net p q :
  readQueue p = Some q →
  (App.processSyncQueue net p).1 = Resolved () ∧
  readQueue (App.processSyncQueue net p).2 =
    Some (failed_of net (getItem "authToken" p) 0 q).
Proof.
  intros Hq. destruct q as [|a q].
  - rewrite processSyncQueue_empty by done. by rewrite failed_of_nil.
  - destruct (processSyncQueue_run net p (a :: q) Hq) as (p2 & es & -> & _);
      [done|].
    split; [done|]. apply readQueue_finishSync.
Qed.

Lemma finishSync_log failed p :
  ∃ m d,
    log (App.finishSync (failed, p)) =
      log p ++ [ESetItem "syncQueue" (JSON_stringify (VArr failed));
                EShowMessage m d].
Proof.
  unfold App.finishSync. destruct (length failed =? 0)%nat;
    do 2 eexists; simpl; by rewrite <- app_assoc.
Qed.

Lemma no_writes_among_fetches es :
  Forall (λ e, is_fetch e = true) es →
  filter (λ e, is_storage_write e = true) es = [].
Proof.
  induction 1 as [|e es He _ IH]; [done|].
  rewrite filter_cons, IH. case_decide; [|done]. by destruct e.
Qed.

(** ** The synchronisation queue: theorems *)

(** C1.  After one drain of a persisted queue of actions, the persisted
    queue is exactly the actions whose replay failed: it is the queue
    filtered by the failure of the replay at each position, hence a
    subsequence of the queue in its order, with every retained action
    unchanged (its id included).  The replay of an action fails exactly
    when the answer to its request is a response that is not ok or a
    transport error; nothing else tells the two apart. *)
Theorem processSyncQueue_retains_failed
    (net : nat → string → object → FetchResult) (p : page) (q : list value) :
  readQueue p = Some q →
  Forall is_action q →
  let token := getItem "authToken" p in
  let result := App.processSyncQueue net p in
  result.1 = Resolved () ∧
  readQueue result.2 = Some (failed_of net token 0 q) ∧
  failed_of net token 0 q `sublist_of` q ∧
  (∀ a, a ∈ failed_of net token 0 q ↔
        ∃ i, q !! i = Some a ∧ replay_failed net token i a = true) ∧
  (∀ i a, q !! i = Some a →
     ∃ url config,
       App.replay_request token a = Some (url, config) ∧
       (replay_failed net token i a = true ↔
          (∃ r, net i url config = Resp r ∧ ok r = false) ∨
          (∃ e, net i url config = NetError e))).
Proof.
  intros Hq Hact token result.
  destruct (processSyncQueue_readQueue net p q Hq) as [H1 H2].
  split; [done|]. split; [done|]. split; [apply failed_of_sublist|].
  split; [intros a; apply (elem_of_failed_of net token q 0 a)|].
  intros i a Hi.
  assert (is_action a) as Ha.
  { rewrite Forall_forall in Hact. apply Hact. by eapply list_elem_of_lookup_2. }
  destruct (replay_request_action token a Ha) as (url & config & Hreq).
  exists url, config. split; [done|].
  rewrite (replay_failed_action _ _ _ _ _ _ Hreq).
  destruct (net i url config) as [r|e]; simpl.
  - split.
    + intros Hok. left. exists r. split; [done|]. by destruct (ok r).
    + intros [(r' & [= <-] & ->)|(e & ?)]; [done|congruence].
  - split; [|done]. intros _. right. by exists e.
Qed.

Lemma processSyncQueue_retains_failed_witness :
  readQueue sample_page = Some (entry_of <$> sample_calls) ∧
  Forall is_action (entry_of <$> sample_calls) ∧
  readQueue (App.processSyncQueue net_first_only sample_page).2 =
    Some [entry_of (1700000000250, estado_action "7" "En Progreso")].
Proof.
  assert (readQueue sample_page = Some (entry_of <$> sample_calls)) as Hq
    by reflexivity.
  assert (Forall is_action (entry_of <$> sample_calls)) as Hact
    by (repeat constructor; eexists; reflexivity).
  split; [exact Hq|]. split; [exact Hact|].
  exact (proj1 (proj2
    (processSyncQueue_retains_failed net_first_only sample_page _ Hq Hact))).
Defined.

Lemma enqueueSyncAction_spec now action p q :
  readQueue p = Some q →
  App.enqueueSyncAction now action p =
    (Resolved (),
     App.registerBackgroundSync
       (App.showMessage
          "Acción guardada para sincronizar cuando haya conexión." 3000
          (setItem "syncQueue"
             (JSON_stringify (VArr (q ++ [entry_of (now, action)]))) p))).
Proof.
  intros Hq. unfold App.enqueueSyncAction.
  by rewrite (readQueue_parse _ _ Hq).
Qed.

Lemma localStorage_registerBackgroundSync p :
  localStorage (App.registerBackgroundSync p) = localStorage p.
Proof. unfold App.registerBackgroundSync. by destruct (syncSupported p). Qed.

Lemma enqueueAll_cons now action calls p :
  enqueueAll ((now, action) :: calls) p =
  enqueueAll calls (App.enqueueSyncAction now action p).2.
Proof. reflexivity. Qed.

Lemma enqueueAll_spec calls : ∀ p q,
  readQueue p = Some q →
  readQueue (enqueueAll calls p) = Some (q ++ (entry_of <$> calls)) ∧
  ∀ key, key ≠ "syncQueue" → getItem key (enqueueAll calls p) = getItem key p.
Proof.
  induction calls as [|[now action] calls IH]; intros p q Hq.
  - simpl. by rewrite app_nil_r.
  - rewrite enqueueAll_cons.
    rewrite (enqueueSyncAction_spec now action p q Hq); cbn [snd fst].
    set (p1 := App.registerBackgroundSync _).
    assert (readQueue p1 = Some (q ++ [entry_of (now, action)])) as Hq1.
    { unfold p1. erewrite readQueue_storage;
        [apply readQueue_stored|].
      by rewrite localStorage_registerBackgroundSync. }
    destruct (IH p1 _ Hq1) as [IH1 IH2]. split.
    + rewrite IH1, <- app_assoc. done.
    + intros key Hkey. rewrite IH2 by done.
      unfold p1, getItem. rewrite localStorage_registerBackgroundSync.
      simpl. by apply lookup_insert_ne.
Qed.

(** C2.  After any sequence of [enqueueSyncAction] calls on a page that
    holds a queue of actions, a drain in which every replay gets a
    response that is ok leaves the persisted queue empty. *)
Theorem drain_after_enqueues_empties
    (net : nat → string → object → FetchResult)
    (calls : list (Z * object)) (p : page) (q0 : list value) :
  readQueue p = Some q0 →
  Forall is_action q0 →
  let p1 := enqueueAll calls p in
  (∀ i a url config,
     (q0 ++ (entry_of <$> calls)) !! i = Some a →
     App.replay_request (getItem "authToken" p1) a = Some (url, config) →
     ∃ r, net i url config = Resp r ∧ ok r = true) →
  readQueue p1 = Some (q0 ++ (entry_of <$> calls)) ∧
  (App.processSyncQueue net p1).1 = Resolved () ∧
  readQueue (App.processSyncQueue net p1).2 = Some [].
Proof.
  intros Hq0 Hact p1 Hok.
  destruct (enqueueAll_spec calls p q0 Hq0) as [Hq1 _]. fold p1 in Hq1.
  split; [done|].
  destruct (processSyncQueue_readQueue net p1 _ Hq1) as [Hres Hq2].
  split; [done|]. rewrite Hq2. f_equal.
  apply failed_of_none. intros j a Hj. simpl.
  assert (is_action a) as Ha.
  { apply list_elem_of_lookup_2 in Hj. apply elem_of_app in Hj as [Hin|Hin].
    - rewrite Forall_forall in Hact. by apply Hact.
    - apply list_elem_of_fmap in Hin as (c & -> & _). by eexists. }
  destruct (replay_request_action (getItem "authToken" p1) a Ha)
    as (url & config & Hreq).
  rewrite (replay_failed_action _ _ _ _ _ _ Hreq).
  destruct (Hok j a url config Hj Hreq) as (r & -> & Hr). simpl. by rewrite Hr.
Qed.

Lemma drain_after_enqueues_empties_witness :
  readQueue blank_page = Some [] ∧
  readQueue
    (enqueueAll [(1700000000000, estado_action "42" "Resuelto")] blank_page) =
    Some [entry_of (1700000000000, estado_action "42" "Resuelto")] ∧
  readQueue
    (App.processSyncQueue (net_status 200)
       (enqueueAll [(1700000000000, estado_action "42" "Resuelto")] blank_page)).2 =
    Some [].
Proof.
  assert (readQueue blank_page = Some []) as Hq by reflexivity.
  destruct (drain_after_enqueues_empties (net_status 200)
              [(1700000000000, estado_action "42" "Resuelto")] blank_page []
              Hq (List.Forall_nil _)) as (H1 & _ & H3).
  - intros i a url config _ _. eexists. split; reflexivity.
  - split; [exact Hq|]. split; [exact H1|exact H3].
Defined.

(** C3.  A drain that makes its pass, that is, a drain of a queue that
    is not empty, writes the persisted queue once, at the end.  It runs
    the whole pass without touching the storage: stopped after any
    number [k] of replays, the storage is still the one the drain
    started from and no storage write has been logged; the pass then
    continues from that very state.  The complete drain adds to the log
    the opening toast, the fetches of the pass, then one single
    [setItem] of the queue of failed actions, then the closing toast.
    A drain of an empty queue, which the specification sets apart,
    returns at once and has no effect at all. *)
Theorem processSyncQueue_writes_at_end
    (net : nat → string → object → FetchResult) (p : page) (q : list value) :
  readQueue p = Some q →
  (q = [] → App.processSyncQueue net p = (Resolved (), p)) ∧
  (q ≠ [] →
   let p0 := App.showMessage "Sincronizando acciones pendientes..." 3000 p in
   let result := App.processSyncQueue net p in
   (∀ k,
      let mid := App.replayFrom net 0 (take k q) ([], p0) in
      localStorage mid.2 = localStorage p ∧
      storage_writes p mid.2 = [] ∧
      App.replayFrom net 0 q ([], p0) =
        App.replayFrom net (length (take k q)) (drop k q) mid) ∧
   result = (Resolved (), App.finishSync (App.replayFrom net 0 q ([], p0))) ∧
   (∃ fetches m d,
      effects_since p result.2 =
        (EShowMessage "Sincronizando acciones pendientes..." 3000 :: fetches ++
         [ESetItem "syncQueue"
            (JSON_stringify (VArr (failed_of net (getItem "authToken" p) 0 q)));
          EShowMessage m d]) ∧
      Forall (λ e, is_fetch e = true) fetches) ∧
   storage_writes p result.2 =
     [ESetItem "syncQueue"
        (JSON_stringify (VArr (failed_of net (getItem "authToken" p) 0 q)))]).
Proof.
  intros Hq. split; [intros ->; by apply processSyncQueue_empty|].
  intros Hne p0 result.
  assert (result = (Resolved (), App.finishSync (App.replayFrom net 0 q ([], p0))))
    as Hres.
  { unfold result, App.processSyncQueue. rewrite (readQueue_parse _ _ Hq).
    by destruct q. }
  split; [|split; [done|]].
  - intros k mid.
    destruct (replayFrom_spec net (take k q) 0 [] p0)
      as (p' & Hmid & Hst & _ & es & Hlog & Hes).
    unfold mid. rewrite Hmid; cbn [snd]. split; [done|]. split.
    + unfold storage_writes. erewrite effects_since_app.
      2:{ rewrite Hlog. unfold p0; simpl. by rewrite <- app_assoc. }
      simpl. rewrite filter_cons. case_decide; [done|].
      by apply no_writes_among_fetches.
    + rewrite <- Hmid, <- (replayFrom_app net (take k q) (drop k q) 0).
      by rewrite take_drop.
  - destruct (replayFrom_spec net q 0 [] p0)
      as (p2 & Hrun & Hst & _ & es & Hlog & Hes).
    rewrite Hres, Hrun; cbn [snd app].
    destruct (finishSync_log (failed_of net (getItem "authToken" p0) 0 q) p2)
      as (m & d & Hfin).
    assert (effects_since p
              (App.finishSync (failed_of net (getItem "authToken" p0) 0 q, p2)) =
            EShowMessage "Sincronizando acciones pendientes..." 3000 :: es ++
            [ESetItem "syncQueue"
               (JSON_stringify (VArr (failed_of net (getItem "authToken" p) 0 q)));
             EShowMessage m d]) as Heff.
    { apply effects_since_app. rewrite Hfin, Hlog. unfold p0; simpl.
      by rewrite <- !app_assoc. }
    split.
    + exists es, m, d. by split.
    + unfold storage_writes. rewrite Heff.
      rewrite filter_cons. case_decide; [done|].
      rewrite filter_app, (no_writes_among_fetches _ Hes). simpl.
      rewrite filter_cons. case_decide; [|done].
      rewrite filter_cons. by case_decide.
Qed.

Lemma processSyncQueue_writes_at_end_witness :
  readQueue sample_page = Some (entry_of <$> sample_calls) ∧
  storage_writes sample_page
    (App.processSyncQueue net_first_only sample_page).2 =
    [ESetItem "syncQueue"
       (JSON_stringify
          (VArr [entry_of (1700000000250, estado_action "7" "En Progreso")]))].
Proof.
  assert (readQueue sample_page = Some (entry_of <$> sample_calls)) as Hq
    by reflexivity.
  split; [exact Hq|].
  destruct (processSyncQueue_writes_at_end net_first_only sample_page _ Hq)
    as [_ Hrun].
  destruct Hrun as (_ & _ & _ & Hwrites); [discriminate|exact Hwrites].
Defined.

(** ** Objects: reading after assignment and spread *)

Lemma get_set k k' v o :
  JS.get k (JS.set k' v o) = if String.eqb k k' then Some v else JS.get k o.
Proof.
  induction o as [|[k0 v0] o IH]; simpl.
  - by destruct (String.eqb k k').
  - destruct (String.eqb_spec k' k0) as [->|Hne]; simpl.
    + by destruct (String.eqb k k0).
    + rewrite IH. destruct (String.eqb_spec k k0) as [->|Hne']; [|done].
      destruct (String.eqb_spec k0 k') as [->|_]; [done|done].
Qed.

Lemma get_absent k (o : object) : k ∉ o.*1 → JS.get k o = None.
Proof.
  induction o as [|[k0 v0] o IH]; simpl; [done|].
  intros Hnot. apply not_elem_of_cons in Hnot as [Hne Hnot].
  destruct (String.eqb_spec k k0); [done|]. by apply IH.
Qed.

(** Spreading an object that lacks [k] leaves [k] as the literal has it. *)
Lemma get_spread_None k src : ∀ literal,
  JS.get k src = None → JS.get k (JS.spread src literal) = JS.get k literal.
Proof.
  induction src as [|[k0 v0] src IH]; intros literal; simpl; [done|].
  destruct (String.eqb_spec k k0) as [->|Hne]; [done|].
  intros Hnone. unfold JS.spread in *. rewrite IH by done. simpl.
  rewrite get_set. by destruct (String.eqb_spec k k0).
Qed.

(** Spreading an object that has [k] gives [k] the value it has there. *)
Lemma get_spread_Some k v src : ∀ literal,
  NoDup src.*1 → JS.get k src = Some v →
  JS.get k (JS.spread src literal) = Some v.
Proof.
  induction src as [|[k0 v0] src IH]; intros literal; simpl; [done|].
  intros [Hnot Hnd]%NoDup_cons.
  destruct (String.eqb_spec k k0) as [->|Hne].
  - intros [= ->]. unfold JS.spread; simpl.
    change (JS.get k0 (JS.spread src (JS.set k0 v literal)) = Some v).
    rewrite get_spread_None by by apply get_absent.
    rewrite get_set. by rewrite String.eqb_refl.
  - intros Hget. by apply (IH (JS.set k0 v0 literal)).
Qed.

Lemma action_id_entry_of now action :
  JS.get "id" action = None → action_id (entry_of (now, action)) = Some (VNum now).
Proof. intros Hnone. simpl. by rewrite get_spread_None. Qed.

Lemma ids_of_entries calls :
  Forall (λ c : Z * object, JS.get "id" c.2 = None) calls →
  action_id <$> (entry_of <$> calls) = (λ c, Some (VNum c.1)) <$> calls.
Proof.
  induction 1 as [|[now action] calls Hc _ IH]; [done|].
  cbn [fmap list_fmap]. f_equal; [|exact IH]. by apply action_id_entry_of.
Qed.

(** ** [enqueueSyncAction]: theorems *)

(** C4, as the code has it.  A call appends [{id: Date.now(), ...action}]
    to the end of the persisted queue and persists the queue at once (the
    write is the first effect of the call, and its only storage write).
    The id of the new entry is the clock reading of the call, unless the
    action has an [id] property of its own, which then wins.  Over a
    sequence of calls whose actions carry no id, the ids of the new
    entries are the clock readings in call order, so they are pairwise
    different when the clock readings are. *)
Theorem enqueueSyncAction_appends
    (now : Z) (action : object) (calls : list (Z * object))
    (p : page) (q : list value) :
  readQueue p = Some q →
  let result := App.enqueueSyncAction now action p in
  let entry := VObj (JS.spread action [("id", VNum now)]) in
  (result.1 = Resolved () ∧
   localStorage result.2 =
     <["syncQueue" := JSON_stringify (VArr (q ++ [entry]))]> (localStorage p) ∧
   readQueue result.2 = Some (q ++ [entry]) ∧
   ∃ rest,
     effects_since p result.2 =
       ESetItem "syncQueue" (JSON_stringify (VArr (q ++ [entry]))) :: rest ∧
     filter (λ e, is_storage_write e = true) rest = []) ∧
  (JS.get "id" action = None → action_id entry = Some (VNum now)) ∧
  (∀ own, NoDup action.*1 → JS.get "id" action = Some own →
          action_id entry = Some own) ∧
  (Forall (λ c : Z * object, JS.get "id" c.2 = None) calls →
   readQueue (enqueueAll calls p) = Some (q ++ (entry_of <$> calls)) ∧
   action_id <$> (entry_of <$> calls) = (λ c, Some (VNum c.1)) <$> calls ∧
   (NoDup calls.*1 → NoDup (action_id <$> (entry_of <$> calls)))).
Proof.
  intros Hq result entry. split; [|split; [|split]].
  - unfold result. rewrite (enqueueSyncAction_spec now action p q Hq).
    cbn [fst snd]. split; [done|]. split; [|split].
    + by rewrite localStorage_registerBackgroundSync.
    + erewrite readQueue_storage; [apply readQueue_stored|].
      by rewrite localStorage_registerBackgroundSync.
    + unfold App.registerBackgroundSync, effects_since.
      destruct (syncSupported _); simpl; rewrite <- ?app_assoc;
        rewrite drop_app_length; eexists; (split; [reflexivity|]);
        vm_compute; reflexivity.
  - intros Hnone. by apply (action_id_entry_of now action).
  - intros own Hnd Hown. simpl. by apply get_spread_Some.
  - intros Hids. split; [by apply enqueueAll_spec|].
    split; [by apply ids_of_entries|].
    intros Hnd. rewrite (ids_of_entries _ Hids).
    replace ((λ c : Z * object, Some (VNum c.1)) <$> calls)
      with ((λ n, Some (VNum n)) <$> calls.*1)
      by (by rewrite <- list_fmap_compose).
    apply NoDup_fmap_2; [|done]. by intros x y [= ->].
Qed.

Lemma enqueueSyncAction_appends_witness :
  readQueue blank_page = Some [] ∧
  readQueue
    (App.enqueueSyncAction 1700000000000 (estado_action "42" "Resuelto")
       blank_page).2 =
    Some [VObj [ ("id", VNum 1700000000000);
                 ("url", VStr "/Reports/42/estado");
                 ("method", VStr "PUT");
                 ("body", VObj [("estado", VStr "Resuelto")]) ]] ∧
  NoDup (action_id <$> (entry_of <$> sample_calls)).
Proof.
  assert (readQueue blank_page = Some []) as Hq by reflexivity.
  destruct (enqueueSyncAction_appends 1700000000000
              (estado_action "42" "Resuelto") sample_calls blank_page [] Hq)
    as ((_ & _ & Hread & _) & _ & _ & Hseq).
  split; [exact Hq|]. split; [exact Hread|].
  destruct Hseq as (_ & _ & Hnd).
  - repeat constructor.
  - apply Hnd. simpl. apply NoDup_cons. split; [|apply NoDup_singleton].
    intros Hin%list_elem_of_singleton. discriminate Hin.
Defined.

(** C4 as stated fails: two calls made within the same millisecond are
    given the same id. *)
Lemma enqueue_same_millisecond_same_id :
  queue_ids (enqueueAll same_ms_calls blank_page) =
    [Some (VNum 1700000000000); Some (VNum 1700000000000)] ∧
  ¬ NoDup (queue_ids (enqueueAll same_ms_calls blank_page)).
Proof.
  assert (queue_ids (enqueueAll same_ms_calls blank_page) =
          [Some (VNum 1700000000000); Some (VNum 1700000000000)]) as Hids
    by reflexivity.
  split; [exact Hids|]. rewrite Hids.
  intros [Hnot _]%NoDup_cons. apply Hnot. by apply list_elem_of_singleton.
Qed.

(** ** [apiCall]: theorems *)

(** Without a [headers] option the request carries the defaults. *)
Lemma apiCall_config_defaults token options :
  JS.get "headers" options = None →
  JS.get "headers" (App.apiCall_config token options) =
    Some (VObj (JS.spread (App.bearer token)
                  [("Content-Type", VStr "application/json")])).
Proof.
  intros Hnone. unfold App.apiCall_config. rewrite Hnone. simpl JS.own_props.
  set (config := JS.spread options _).
  assert (JS.get "headers" config =
          Some (VObj (JS.spread (App.bearer token)
                        [("Content-Type", VStr "application/json")]))) as Hc.
  { unfold config. by rewrite get_spread_None. }
  destruct (JS.get "body" config) as [b|]; [|done].
  destruct (JS.truthy (Some b) && JS.not_a_string (Some b)); [|done].
  by rewrite get_set.
Qed.

(** With a [headers] option the request carries that object and nothing
    else: [...options] puts it in the place of the merged headers. *)
Lemma apiCall_config_headers_option token options h :
  NoDup options.*1 → JS.get "headers" options = Some h →
  JS.get "headers" (App.apiCall_config token options) = Some h.
Proof.
  intros Hnd Hh. unfold App.apiCall_config.
  set (config := JS.spread options _).
  assert (JS.get "headers" config = Some h) as Hc
    by (unfold config; by apply get_spread_Some).
  destruct (JS.get "body" config) as [b|]; [|done].
  destruct (JS.truthy (Some b) && JS.not_a_string (Some b)); [|done].
  by rewrite get_set.
Qed.

(** C5 on a call that passes one header of its own, from a page that
    holds a token: the request that reaches [fetch] has that header
    only, neither [Content-Type] nor [Authorization]. *)
Theorem apiCall_headers_option_drops_defaults :
  text_truthy (getItem "authToken" sample_page) = true ∧
  head (effects_since sample_page
          (App.apiCall (api_status 200) "/Reports" traced_options sample_page).2) =
    Some (EFetch "https://ciudad-conectada.onrender.com/api/Reports"
            [ ("method", VStr "GET");
              ("headers", VObj [("X-Trace", VStr "1")]) ]).
Proof. split; reflexivity. Qed.

(** C6.  Whatever the endpoint and the options, a call that is answered
    with status 401 removes [authToken] and [currentUser] from the
    storage, resets [App.currentUser] and leaves for the login page, and
    then fails with the error that carries the status and the text of
    the body. *)
Theorem apiCall_401_clears_session
    (net : string → object → FetchResult) (endpoint : string)
    (options : object) (p : page) (r : Response) :
  let url := App.apiBaseUrl +:+ endpoint in
  let config := App.apiCall_config (getItem "authToken" p) options in
  net url config = Resp r →
  status r = 401 →
  let result := App.apiCall net endpoint options p in
  result.1 = Rejected ("Error en la API: 401 " +:+ text_string (body r)) ∧
  getItem "authToken" result.2 = None ∧
  getItem "currentUser" result.2 = None ∧
  currentUser result.2 = VNull ∧
  location_href result.2 = "Login.html" ∧
  effects_since p result.2 =
    [ EFetch url config;
      ERemoveItem "authToken";
      ERemoveItem "currentUser";
      ENavigate "Login.html";
      EShowMessage "Error de conexión. Revisa la consola para más detalles." 5000 ].
Proof.
  intros url config Hnet Hst result.
  unfold result, App.apiCall. fold url. fold config.
  unfold fetch. rewrite Hnet.
  assert (ok r = false) as -> by (unfold ok; by rewrite Hst).
  rewrite Hst. cbn [negb Z.eqb Pos.eqb].
  unfold App.apiCall_catch; cbn [fst snd].
  split; [done|]. split; [|split; [|split; [done|split; [done|]]]].
  - unfold getItem; simpl. rewrite lookup_delete_ne by done.
    apply lookup_delete_eq.
  - unfold getItem; simpl. apply lookup_delete_eq.
  - unfold effects_since; simpl. rewrite <- !app_assoc.
    by rewrite drop_app_length.
Qed.

Lemma apiCall_401_clears_session_witness :
  status (mkResponse 401 (Some "text/plain") (Raw "Unauthorized")) = 401 ∧
  (App.apiCall
     (λ _ _, Resp (mkResponse 401 (Some "text/plain") (Raw "Unauthorized")))
     "/Reports" [] sample_page).1 =
    Rejected "Error en la API: 401 Unauthorized" ∧
  getItem "authToken"
    (App.apiCall
       (λ _ _, Resp (mkResponse 401 (Some "text/plain") (Raw "Unauthorized")))
       "/Reports" [] sample_page).2 = None.
Proof.
  split; [reflexivity|].
  destruct (apiCall_401_clears_session
              (λ _ _, Resp (mkResponse 401 (Some "text/plain") (Raw "Unauthorized")))
              "/Reports" [] sample_page
              (mkResponse 401 (Some "text/plain") (Raw "Unauthorized"))
              eq_refl eq_refl) as (H1 & H2 & _).
  split; [exact H1|exact H2].
Defined.

(** ** The service worker: lemmas *)

Lemma filter_ext_elem {A} (P Q : A → Prop)
    `{!∀ x, Decision (P x), !∀ x, Decision (Q x)} (l : list A) :
  (∀ x, x ∈ l → P x ↔ Q x) → filter P l = filter Q l.
Proof.
  induction l as [|a l IH]; intros Hext; [done|].
  rewrite !filter_cons.
  rewrite IH by (intros x Hx; apply Hext; by right).
  destruct (decide (P a)) as [HP|HP], (decide (Q a)) as [HQ|HQ]; try done.
  - destruct HQ. apply Hext; [by left|done].
  - destruct HP. apply Hext; [by left|done].
Qed.

(** Deleting a list of caches keeps exactly the caches not named in it. *)
Lemma delete_all names : ∀ cs,
  fold_left (λ cs key, SW.caches_delete key cs) names cs =
  filter (λ nc, nc.1 ∉ names) cs.
Proof.
  induction names as [|n names IH]; intros cs; cbn [fold_left].
  - symmetry. induction cs as [|nc cs IHcs]; [done|].
    rewrite filter_cons, IHcs. case_decide as Hd; [done|].
    by apply elem_of_nil in Hd.
  - rewrite IH. unfold SW.caches_delete. rewrite list_filter_filter.
    apply list_filter_iff. intros nc. rewrite not_elem_of_cons. tauto.
Qed.

Lemma onActivate_filter st :
  SW.caches (SW.onActivate st) =
  filter (λ nc, nc.1 = SW.CACHE_NAME ∨ nc.1 = SW.API_CACHE) (SW.caches st).
Proof.
  unfold SW.onActivate; simpl. rewrite delete_all.
  apply filter_ext_elem. intros [n c] Hin; simpl.
  rewrite list_elem_of_filter. split.
  - intros Hnot.
    destruct (decide (n = SW.CACHE_NAME)) as [|H1]; [by left|].
    destruct (decide (n = SW.API_CACHE)) as [|H2]; [by right|].
    destruct Hnot. split; [done|].
    unfold SW.caches_keys. by apply (list_elem_of_fmap_2 fst _ (n, c)).
  - intros [->| ->] [[H1 H2] _]; congruence.
Qed.

Lemma NoDup_keys_filter (P : string * SW.Cache → Prop)
    `{!∀ x, Decision (P x)} (cs : SW.CacheStorage) :
  NoDup cs.*1 → NoDup (filter P cs).*1.
Proof.
  induction cs as [|[n c] cs IH]; [done|].
  cbn [fmap list_fmap fst]. intros [Hnot Hnd]%NoDup_cons.
  rewrite filter_cons. case_decide; [|by apply IH].
  cbn [fmap list_fmap fst]. apply NoDup_cons. split; [|by apply IH].
  intros Hin. apply Hnot.
  apply list_elem_of_fmap in Hin as ([n' c'] & -> & Hin').
  apply list_elem_of_filter in Hin' as [_ Hin'].
  by apply (list_elem_of_fmap_2 fst _ (n', c')).
Qed.

(** ** The service worker: theorems *)

(** C8.  An activation deletes every cache whose name is neither the
    current static generation nor the current API generation, and keeps
    the caches of those two names as they are: the names present
    afterwards are the names present before that are one of the two, so
    at most those two generations exist. *)
Theorem onActivate_keeps_current_generations (st : SW.state) :
  SW.caches (SW.onActivate st) =
    filter (λ nc, nc.1 = SW.CACHE_NAME ∨ nc.1 = SW.API_CACHE) (SW.caches st) ∧
  (∀ name,
     name ∈ SW.caches_keys (SW.caches (SW.onActivate st)) ↔
     name ∈ SW.caches_keys (SW.caches st) ∧
     (name = SW.CACHE_NAME ∨ name = SW.API_CACHE)) ∧
  (∀ name c, (name, c) ∈ SW.caches st →
     name ≠ SW.CACHE_NAME → name ≠ SW.API_CACHE →
     name ∉ SW.caches_keys (SW.caches (SW.onActivate st))) ∧
  (NoDup (SW.caches_keys (SW.caches st)) →
   (length (SW.caches (SW.onActivate st)) ≤ 2)%nat).
Proof.
  assert (∀ name,
     name ∈ SW.caches_keys (SW.caches (SW.onActivate st)) ↔
     name ∈ SW.caches_keys (SW.caches st) ∧
     (name = SW.CACHE_NAME ∨ name = SW.API_CACHE)) as Hkeys.
  { intros name. rewrite onActivate_filter. unfold SW.caches_keys.
    rewrite !list_elem_of_fmap. split.
    - intros ([n c] & -> & [Hn Hin]%list_elem_of_filter). split; [|done].
      by exists (n, c).
    - intros (([n c] & -> & Hin) & Hn). exists (n, c). split; [done|].
      by apply list_elem_of_filter. }
  split; [apply onActivate_filter|]. split; [done|]. split.
  - intros name c _ H1 H2 Hin. apply Hkeys in Hin as [_ [?|?]]; congruence.
  - intros Hnd.
    assert (NoDup (SW.caches_keys (SW.caches (SW.onActivate st)))) as Hnd'.
    { rewrite onActivate_filter. by apply NoDup_keys_filter. }
    apply (NoDup_submseteq _ [SW.CACHE_NAME; SW.API_CACHE]) in Hnd'.
    + apply submseteq_length in Hnd'. unfold SW.caches_keys in Hnd'.
      by rewrite length_fmap in Hnd'.
    + intros name [_ [->| ->]]%Hkeys;
        [apply list_elem_of_here|apply list_elem_of_further, list_elem_of_here].
Qed.

Lemma onActivate_keeps_current_generations_witness :
  NoDup (SW.caches_keys (SW.caches upgraded)) ∧
  (length (SW.caches (SW.onActivate upgraded)) ≤ 2)%nat ∧
  "cc-cache-v4" ∉ SW.caches_keys (SW.caches (SW.onActivate upgraded)).
Proof.
  assert (NoDup (SW.caches_keys (SW.caches upgraded))) as Hnd.
  { apply (bool_decide_unpack (NoDup (SW.caches_keys (SW.caches upgraded)))).
    vm_compute. exact I. }
  destruct (onActivate_keeps_current_generations upgraded)
    as (_ & _ & Hgone & Hlen).
  split; [exact Hnd|]. split; [exact (Hlen Hnd)|].
  apply (Hgone "cc-cache-v4"
           {[ SW.identity_of_path "https://ciudad.example" "/Home.html" := old_home_page ]});
    [|discriminate|discriminate].
  unfold upgraded; simpl. apply list_elem_of_further, list_elem_of_here.
Defined.

(** *** Lookups in the cache storage *)

Lemma caches_match_elem key cs r :
  SW.caches_match key cs = Some r →
  ∃ name c, (name, c) ∈ cs ∧ c !! key = Some r.
Proof.
  induction cs as [|[n c] cs IH]; simpl; [done|].
  destruct (c !! key) as [r0|] eqn:Hc.
  - intros [= <-]. exists n, c. split; [apply list_elem_of_here|done].
  - intros (n' & c' & Hin & Hk)%IH. exists n', c'.
    split; [by apply list_elem_of_further|done].
Qed.

Lemma caches_match_named name key cs c r :
  SW.cache_named name cs = Some c → c !! key = Some r →
  (∃ r', SW.caches_match key cs = Some r') ∧
  ((∀ n c', (n, c') ∈ cs → n ≠ name → c' !! key = None) →
   SW.caches_match key cs = Some r).
Proof.
  induction cs as [|[n0 c0] cs IH]; simpl; [done|].
  destruct (String.eqb_spec n0 name) as [->|Hne].
  - intros [= ->] Hk. rewrite Hk. split; [by eexists|done].
  - intros Hnamed Hk. destruct (IH Hnamed Hk) as [[r' Hr'] Honly]. split.
    + destruct (c0 !! key); by eexists.
    + intros Hothers.
      rewrite (Hothers n0 c0 (list_elem_of_here _ _) Hne).
      apply Honly. intros n c' Hin. apply Hothers. by apply list_elem_of_further.
Qed.

Lemma elem_of_caches_open name cs n c :
  (n, c) ∈ SW.caches_open name cs → (n, c) ∈ cs ∨ (n = name ∧ c = ∅).
Proof.
  unfold SW.caches_open. destruct (SW.cache_named name cs); [by left|].
  intros [Hin|Hin%list_elem_of_singleton]%elem_of_app; [by left|].
  right. by injection Hin.
Qed.

Lemma elem_of_cache_put name key r cs n c :
  (n, c) ∈ SW.cache_put name key r cs →
  (n, c) ∈ cs ∨
  (SW.put_accepted key r = true ∧ n = name ∧
   ∃ c0, (n, c0) ∈ cs ∧ c = <[key := r]> c0).
Proof.
  unfold SW.cache_put. destruct (SW.put_accepted key r); [|by left].
  intros ([n0 c0] & Heq & Hin)%list_elem_of_fmap.
  simpl in Heq. destruct (String.eqb_spec n0 name) as [->|Hne].
  - injection Heq as -> ->. right. split; [done|]. split; [done|]. by exists c0.
  - injection Heq as -> ->. by left.
Qed.


Lemma cache_named_put name key r cs c :
  SW.put_accepted key r = true →
  SW.cache_named name cs = Some c →
  SW.cache_named name (SW.cache_put name key r cs) = Some (<[key := r]> c).
Proof.
  intros Htaken. unfold SW.cache_put. rewrite Htaken.
  induction cs as [|[n0 c0] cs IH]; simpl; [done|].
  destruct (String.eqb_spec n0 name) as [->|Hne]; simpl.
  - intros [= ->]. by rewrite String.eqb_refl.
  - intros Hnamed. destruct (String.eqb_spec n0 name); [done|]. by apply IH.
Qed.

Lemma cache_named_open name cs :
  ∃ c, SW.cache_named name (SW.caches_open name cs) = Some c.
Proof.
  unfold SW.caches_open. destruct (SW.cache_named name cs) as [c|] eqn:Hc.
  - by exists c.
  - exists ∅. induction cs as [|[n0 c0] cs IH]; simpl in *.
    + by rewrite String.eqb_refl.
    + destruct (String.eqb n0 name); [done|]. by apply IH.
Qed.



(** *** Properties of all cached entries *)

Section holds_only.
Variable Q : string → SW.identity → Response → Prop.

Lemma holds_only_nil : holds_only Q [].
Proof. intros name c key r Hin. by apply elem_of_nil in Hin. Qed.

Lemma holds_only_match cs key r :
  holds_only Q cs → SW.caches_match key cs = Some r → ∃ name, Q name key r.
Proof.
  intros Hcs (name & c & Hin & Hk)%caches_match_elem.
  exists name. by eapply Hcs.
Qed.

Lemma holds_only_open name cs :
  holds_only Q cs → holds_only Q (SW.caches_open name cs).
Proof.
  intros Hcs n c key r [Hin|[_ ->]]%elem_of_caches_open Hk; [by eapply Hcs|].
  by rewrite lookup_empty in Hk.
Qed.

Lemma holds_only_put name key r cs :
  holds_only Q cs → (SW.put_accepted key r = true → Q name key r) →
  holds_only Q (SW.cache_put name key r cs).
Proof.
  intros Hcs HQ n c k r' [Hin|(Htaken & -> & c0 & Hin & ->)]%elem_of_cache_put Hk.
  - by eapply Hcs.
  - destruct (decide (key = k)) as [->|Hne].
    + rewrite lookup_insert_eq in Hk. injection Hk as <-. by apply HQ.
    + rewrite lookup_insert_ne in Hk by done. by eapply Hcs.
Qed.

Lemma holds_only_filter (P : string * SW.Cache → Prop)
    `{!∀ x, Decision (P x)} cs :
  holds_only Q cs → holds_only Q (filter P cs).
Proof.
  intros Hcs n c key r [_ Hin]%list_elem_of_filter. by apply Hcs.
Qed.

Hypothesis Q_covered : covers Q.

Lemma holds_only_install origin net st :
  holds_only Q (SW.caches st) →
  holds_only Q (SW.caches (SW.onInstall origin net st)).
Proof.
  intros Hcs. unfold SW.onInstall.
  destruct (mapM _ _) as [entries|] eqn:Hentries; simpl;
    [|by apply holds_only_open].
  apply mapM_Some_1, Forall2_Forall_r with (Q := λ kr, ok kr.2 = true)
    in Hentries.
  2:{ apply Forall_true. intros u [k r]. unfold SW.asset_entry.
      destruct (net u) as [r0|]; [|done].
      destruct (ok r0) eqn:Hr0; [|done]. simpl.
      destruct (SW.storable r0); [|done]. by intros [= _ <-]. }
  assert (holds_only Q (SW.caches_open SW.CACHE_NAME (SW.caches st))) as Hopen
    by by apply holds_only_open.
  revert Hopen. generalize (SW.caches_open SW.CACHE_NAME (SW.caches st)).
  induction Hentries as [|[k r] entries Hr _ IH]; intros cs0 Hcs0; [done|].
  cbn [fold_left]. apply IH, holds_only_put; [done|].
  intros Htaken. by apply Q_covered.
Qed.

Lemma holds_only_fetch origin net request st :
  holds_only Q (SW.caches st) →
  holds_only Q (SW.caches (SW.onFetch origin net request st).2).
Proof.
  intros Hcs. unfold SW.onFetch.
  destruct (bool_decide _).
  { by destruct (SW.caches_match _ _). }
  destruct (JS.startsWith _ _) eqn:Hapi.
  - unfold SW.apiNetworkThenCache, SW.fetch.
    destruct (net request) as [r|e]; simpl.
    + destruct (ok r) eqn:Hr; [|done]. simpl.
      apply holds_only_put; [by apply holds_only_open|].
      intros Htaken. by apply Q_covered.
    + by destruct (SW.caches_match _ _).
  - unfold SW.fetch. destruct (net request) as [r|e]; [done|]. simpl.
    by destruct (SW.caches_match _ _).
Qed.

Lemma holds_only_step st st' :
  handles st st' → holds_only Q (SW.caches st) → holds_only Q (SW.caches st').
Proof.
  intros [origin net st0|st0|origin net request st0] Hcs.
  - by apply holds_only_install.
  - rewrite onActivate_filter. by apply holds_only_filter.
  - by apply holds_only_fetch.
Qed.

(** The property holds of every cached entry, whatever the worker has
    handled since it did. *)
Lemma holds_only_invariant st st' :
  rtc handles st st' → holds_only Q (SW.caches st) → holds_only Q (SW.caches st').
Proof.
  induction 1 as [|st1 st2 st3 Hstep _ IH]; [done|].
  intros Hcs. by apply IH, (holds_only_step st1).
Qed.
End holds_only.

Lemma covers_only_ok : covers (λ _ _ r, ok r = true).
Proof. by split. Qed.


Lemma covers_api_keys_only :
  covers (λ name key _, name ≠ SW.CACHE_NAME →
                        JS.startsWith SW.API_BASE key.2 = true).
Proof. split; [done|]. by intros key r _ _ Hne. Qed.



(** C9.  A request whose path is in the manifest, when the static
    generation holds an entry for that path, is answered from the cache
    storage and the worker does not touch the network: its state, the
    log of network requests included, is unchanged.  The answer is what
    [caches.match] finds for the path, an entry of some cache; it is the
    entry of the static generation itself whenever no other cache holds
    one for the same path.  That is the case when the other caches hold
    API responses only and the path, resolved against the worker's
    origin, is not under the API base; and the other caches hold API
    responses only in every state the worker reaches from an empty
    cache storage. *)
Theorem onFetch_static_cache_first
    (origin : string) (net : SW.Request → FetchResult)
    (request : SW.Request) (st : SW.state) (c : SW.Cache) (r : Response) :
  let path := SW.pathname (SW.url request) in
  let key := SW.identity_of_path origin path in
  path ∈ SW.STATIC_ASSETS →
  SW.cache_named SW.CACHE_NAME (SW.caches st) = Some c →
  c !! key = Some r →
  let result := SW.onFetch origin net request st in
  result.2 = st ∧
  SW.network result.2 = SW.network st ∧
  (∃ r', result.1 = Resp r' ∧
         SW.caches_match key (SW.caches st) = Some r' ∧
         ∃ name c', (name, c') ∈ SW.caches st ∧ c' !! key = Some r') ∧
  ((∀ name c', (name, c') ∈ SW.caches st → name ≠ SW.CACHE_NAME →
               c' !! key = None) →
   result.1 = Resp r) ∧
  (api_keys_only (SW.caches st) →
   JS.startsWith SW.API_BASE (origin +:+ path) = false →
   result.1 = Resp r) ∧
  (∀ st0, SW.caches st0 = [] → rtc handles st0 st →
          api_keys_only (SW.caches st)).
Proof.
  intros path key Hstatic Hnamed Hkey result.
  destruct (caches_match_named _ _ _ _ _ Hnamed Hkey) as [[r' Hr'] Honly].
  assert (result = (Resp r', st)) as ->.
  { unfold result, SW.onFetch. fold path.
    rewrite bool_decide_eq_true_2 by done. fold key. by rewrite Hr'. }
  split; [done|]. split; [done|]. split; [|split; [|split]].
  - exists r'. split; [done|]. split; [done|]. by apply caches_match_elem.
  - intros Hothers. simpl. rewrite Honly in Hr' by done. congruence.
  - intros Hinv Hbase. simpl. rewrite Honly in Hr'; [congruence|].
    intros name c' Hin Hne. destruct (c' !! key) as [r0|] eqn:Hc'; [|done].
    pose proof (Hinv name c' key r0 Hin Hc' Hne) as Habs.
    simpl in Habs. congruence.
  - intros st0 Hempty Hrun.
    apply (holds_only_invariant _ covers_api_keys_only _ _ Hrun).
    rewrite Hempty. apply holds_only_nil.
Qed.

Lemma onFetch_static_cache_first_witness :
  SW.pathname (SW.url home_request) ∈ SW.STATIC_ASSETS ∧
  SW.onFetch "https://ciudad.example" offline home_request installed =
    (Resp home_page, installed).
Proof.
  assert (SW.pathname (SW.url home_request) ∈ SW.STATIC_ASSETS) as Hin
    by (apply list_elem_of_further, list_elem_of_here).
  split; [exact Hin|].
  destruct (onFetch_static_cache_first "https://ciudad.example" offline
              home_request installed
              {[ SW.identity_of_path "https://ciudad.example" "/Home.html" := home_page ]}
              home_page Hin eq_refl eq_refl) as (Hst & _ & _ & Hfirst & _).
  apply injective_projections; [|exact Hst].
  apply Hfirst. intros name c' Hin' Hne.
  apply list_elem_of_singleton in Hin'. injection Hin' as -> _. by destruct Hne.
Defined.

(** C7, as the code has it.  When the network cannot be reached and no
    cache holds an answer for the request, [apiNetworkThenCache] answers
    with status 200, content type [application/json] and the body
    [{ok: true, offline: true, message: "Datos cargados offline",
    data: []}]; so does the [fetch] handler for every request it routes
    there, that is, whose URL starts with the API base and whose path is
    not in the manifest.  Nothing is sent beyond the one failed request
    and the caches are left as they were. *)
Theorem apiNetworkThenCache_offline_placeholder
    (origin : string) (net : SW.Request → FetchResult)
    (request : SW.Request) (st : SW.state) (e : string) :
  net request = NetError e →
  SW.caches_match (SW.identity_of request) (SW.caches st) = None →
  let result := SW.apiNetworkThenCache net request st in
  result.1 = Resp SW.offline_response ∧
  response_body result.1 =
    Some (JSON_stringify
            (VObj [ ("ok", VBool true);
                    ("offline", VBool true);
                    ("message", VStr "Datos cargados offline");
                    ("data", VArr []) ])) ∧
  status SW.offline_response = 200 ∧
  content_type SW.offline_response = Some "application/json" ∧
  SW.caches result.2 = SW.caches st ∧
  SW.network result.2 = SW.network st ++ [SW.identity_of request] ∧
  (SW.pathname (SW.url request) ∉ SW.STATIC_ASSETS →
   JS.startsWith SW.API_BASE (SW.href (SW.url request)) = true →
   SW.onFetch origin net request st = result).
Proof.
  intros Hnet Hmiss result.
  assert (result =
          (Resp SW.offline_response,
           SW.mkState (SW.caches st)
             (SW.network st ++ [SW.identity_of request]))) as Hres.
  { unfold result, SW.apiNetworkThenCache, SW.fetch. rewrite Hnet. simpl.
    by rewrite Hmiss. }
  rewrite Hres. repeat (split; [done|]).
  intros Hpath Hapi. unfold SW.onFetch.
  rewrite bool_decide_eq_false_2 by done. rewrite Hapi.
  by rewrite <- Hres.
Qed.

Lemma apiNetworkThenCache_offline_placeholder_witness :
  offline reports_request = NetError "TypeError: Failed to fetch" ∧
  SW.caches_match (SW.identity_of reports_request) (SW.caches installed) = None ∧
  text_string <$>
    response_body (SW.apiNetworkThenCache offline reports_request installed).1 =
    Some ("{" +:+ JSON.quoted "ok" +:+ ":true," +:+
          JSON.quoted "offline" +:+ ":true," +:+
          JSON.quoted "message" +:+ ":" +:+ JSON.quoted "Datos cargados offline" +:+ "," +:+
          JSON.quoted "data" +:+ ":[]}").
Proof.
  split; [reflexivity|]. split; [reflexivity|].
  destruct (apiNetworkThenCache_offline_placeholder "https://ciudad.example"
              offline reports_request installed _ eq_refl eq_refl)
    as (_ & Hbody & _).
  rewrite Hbody. reflexivity.
Defined.

(** C7 as stated fails: the body that is made up is not
    [{ok: true, offline: true, data: []}], it has a [message] too. *)
Lemma offline_placeholder_has_message :
  offline reports_request = NetError "TypeError: Failed to fetch" ∧
  SW.caches_match (SW.identity_of reports_request) (SW.caches installed) = None ∧
  response_body (SW.apiNetworkThenCache offline reports_request installed).1 ≠
    Some (JSON_stringify
            (VObj [ ("ok", VBool true);
                    ("offline", VBool true);
                    ("data", VArr []) ])) ∧
  text_string <$>
    response_body (SW.apiNetworkThenCache offline reports_request installed).1 ≠
    Some (JSON.stringify
            (VObj [ ("ok", VBool true);
                    ("offline", VBool true);
                    ("data", VArr []) ])).
Proof.
  split; [reflexivity|]. split; [reflexivity|].
  split; vm_compute; discriminate.
Qed.




(** ** Session: further properties *)

Lemma authorization_replay_None a url config :
  App.replay_request None a = Some (url, config) → authorization config = None.
Proof.
  unfold App.replay_request.
  destruct (App.prop "url" a) as [u|]; simpl; [|done].
  destruct (App.prop "method" a) as [m|]; simpl; [|done].
  destruct (App.prop "body" a) as [[b|]|]; simpl; [| |done];
    intros [= <- <-]; by repeat case_match.
Qed.

(** X1.  [logout] forgets the session and nothing else: the token and
    the stored user are gone and a reload restores no user, every other
    key of the storage (the synchronisation queue among them) is as it
    was, and the requests made afterwards, by [apiCall] without a
    [headers] option and by the replays of a drain, carry no
    [Authorization] header. *)
Theorem logout_forgets_session (p : page) :
  let p' := App.logout p in
  getItem "authToken" p' = None ∧
  getItem "currentUser" p' = None ∧
  currentUser (App.restoreCurrentUser p') = VNull ∧
  (∀ key, key ≠ "authToken" → key ≠ "currentUser" →
          getItem key p' = getItem key p) ∧
  readQueue p' = readQueue p ∧
  (∀ options, JS.get "headers" options = None →
     authorization (App.apiCall_config (getItem "authToken" p') options) = None) ∧
  (∀ a url config,
     App.replay_request (getItem "authToken" p') a = Some (url, config) →
     authorization config = None).
Proof.
  intros p'.
  assert (getItem "authToken" p' = None) as Htoken.
  { unfold p', getItem; simpl. rewrite lookup_delete_ne by done.
    apply lookup_delete_eq. }
  assert (getItem "currentUser" p' = None) as Huser.
  { unfold p', getItem; simpl. apply lookup_delete_eq. }
  assert (∀ key, key ≠ "authToken" → key ≠ "currentUser" →
                 getItem key p' = getItem key p) as Hframe.
  { intros key H1 H2. unfold p', getItem; simpl.
    by rewrite !lookup_delete_ne by done. }
  split; [done|]. split; [done|]. split.
  { unfold App.restoreCurrentUser. by rewrite Huser. }
  split; [done|]. split.
  { unfold readQueue. by rewrite Hframe. }
  rewrite Htoken. split.
  - intros options Hnone. unfold authorization.
    by rewrite apiCall_config_defaults.
  - apply authorization_replay_None.
Qed.

(** X2.  What [setAuthData] stores is what a reload finds: whatever
    [App.currentUser] is reset to, [restoreCurrentUser] brings back the
    user that was stored, the token is the stored text, and the next
    [apiCall] without a [headers] option presents it as
    [Bearer <token>], provided it is not the empty string. *)
Theorem setAuthData_restoreCurrentUser
    (token : string) (user forgotten : value) (p : page) :
  let p' :=
    App.restoreCurrentUser (set_currentUser forgotten (App.setAuthData token user p)) in
  currentUser p' = user ∧
  getItem "authToken" p' = Some (Raw token) ∧
  (token ≠ "" →
   ∀ options, JS.get "headers" options = None →
     authorization (App.apiCall_config (getItem "authToken" p') options) =
       Some (VStr ("Bearer " +:+ token))).
Proof.
  intros p'.
  assert (getItem "authToken" p' = Some (Raw token)) as Htoken.
  { unfold p', getItem; simpl. rewrite lookup_insert_ne by done.
    apply lookup_insert_eq. }
  split; [|split; [done|]].
  - unfold p', App.restoreCurrentUser, getItem; simpl.
    by rewrite lookup_insert_eq.
  - intros Hne options Hnone. rewrite Htoken. unfold authorization.
    rewrite apiCall_config_defaults by done. simpl.
    destruct (String.eqb_spec token ""); [done|]. reflexivity.
Qed.

Lemma setAuthData_restoreCurrentUser_witness :
  "eyJ.abc" ≠ "" ∧
  authorization
    (App.apiCall_config
       (getItem "authToken"
          (App.restoreCurrentUser
             (set_currentUser VNull (App.setAuthData "eyJ.abc" sample_user blank_page))))
       []) =
    Some (VStr "Bearer eyJ.abc").
Proof.
  assert ("eyJ.abc" ≠ "") as Hne by discriminate.
  split; [exact Hne|].
  exact (proj2 (proj2 (setAuthData_restoreCurrentUser "eyJ.abc" sample_user VNull
                         blank_page)) Hne [] eq_refl).
Defined.

(** The effects added, when the log is known to have grown by them. *)
Ltac effects :=
  unfold fetches_since, storage_writes, effects_since; simpl;
  rewrite <- ?app_assoc; rewrite ?drop_app_length; simpl.

(** X3.  A login that is answered with a JSON body holding a token (a
    non-empty string) and a user succeeds: it adds the token and the
    user to the storage and changes no other key, sets
    [App.currentUser], schedules the move to [Home.html], and what it
    stored survives a reload and passes [checkAuthStatus] on every page
    other than the login and registration pages. *)
Theorem login_success
    (net : string → object → FetchResult) (email password : string)
    (p : page) (r : Response) (o : object) (token : string) (user : value) :
  let options :=
    [ ("method", VStr "POST");
      ("body", VObj [("email", VStr email); ("password", VStr password)]) ] in
  net (App.apiBaseUrl +:+ "/auth/login")
      (App.apiCall_config (getItem "authToken" p) options) = Resp r →
  ok r = true →
  JS.includes "application/json" (default "" (content_type r)) = true →
  body r = Json (VObj o) →
  JS.get "token" o = Some (VStr token) → token ≠ "" →
  JS.get "user" o = Some user → JS.truthy (Some user) = true →
  let result := App.login net email password p in
  result.1.1 = true ∧
  result.2 = [NavigateAfter 1000 "Home.html"] ∧
  localStorage result.1.2 =
    <["currentUser" := Json user]> (<["authToken" := Raw token]> (localStorage p)) ∧
  currentUser result.1.2 = user ∧
  currentUser (App.restoreCurrentUser (set_currentUser VNull result.1.2)) = user ∧
  (∀ path, on_auth_page path = false →
           App.checkAuthStatus path result.1.2 = (true, result.1.2)).
Proof.
  intros options Hnet Hok Hjson Hbody Htoken Hne Huser Htruthy result.
  assert (JS.truthy (Some (VStr token)) = true) as Htt.
  { simpl. by destruct (String.eqb_spec token ""). }
  assert (result =
          (true,
           App.showMessage "Inicio de sesión exitoso ✔" 2500
             (set_currentUser user
                (setItem "currentUser" (Json user)
                   (setItem "authToken" (Raw token)
                      (emit (EFetch (App.apiBaseUrl +:+ "/auth/login")
                               (App.apiCall_config (getItem "authToken" p) options))
                         p)))),
           [NavigateAfter 1000 "Home.html"])) as ->.
  { unfold result, App.login, App.apiCall, fetch. fold options.
    rewrite Hnet, Hok. cbn [negb]. rewrite Hjson, Hbody.
    cbn [JSON_parse App.prop]. rewrite Htoken, Huser, Htt, Htruthy. done. }
  cbn [fst snd]. split; [done|]. split; [done|]. split; [done|].
  split; [done|]. split.
  - unfold App.restoreCurrentUser, getItem; simpl. by rewrite lookup_insert_eq.
  - intros path Hpath. unfold App.checkAuthStatus.
    set (p' := App.showMessage _ _ _).
    assert (text_truthy (getItem "authToken" p') = true) as ->.
    { unfold p', getItem; simpl. rewrite lookup_insert_ne by done.
      rewrite lookup_insert_eq. simpl. by destruct (String.eqb_spec token ""). }
    unfold on_auth_page in Hpath. apply orb_false_iff in Hpath as [-> ->]. done.
Qed.

Lemma login_success_witness :
  (App.login (λ _ _, Resp (login_answer "eyJ.abc" sample_user))
     "ana@example.org" "secreto" blank_page).1.1 = true ∧
  getItem "authToken"
    (App.login (λ _ _, Resp (login_answer "eyJ.abc" sample_user))
       "ana@example.org" "secreto" blank_page).1.2 = Some (Raw "eyJ.abc").
Proof.
  destruct (login_success (λ _ _, Resp (login_answer "eyJ.abc" sample_user))
              "ana@example.org" "secreto" blank_page
              (login_answer "eyJ.abc" sample_user) _ "eyJ.abc" sample_user
              eq_refl eq_refl eq_refl eq_refl eq_refl)
    as (Htrue & _ & Hst & _); [discriminate|reflexivity|reflexivity|].
  split; [exact Htrue|].
  unfold getItem. rewrite Hst. reflexivity.
Defined.

(** X4.  A login that returns [false] has stored nothing and has
    scheduled nothing: it made no [setItem], every key the storage
    holds afterwards it held before with the same text (a 401 answer
    removes the session, nothing is ever added), no timer was set, and
    the one request it made is the [POST] to [/auth/login]. *)
Theorem login_false_stores_nothing
    (net : string → object → FetchResult) (email password : string) (p : page) :
  let result := App.login net email password p in
  result.1.1 = false →
  result.2 = [] ∧
  filter (λ e, is_setItem e = true) (effects_since p result.1.2) = [] ∧
  (∀ key t, getItem key result.1.2 = Some t → getItem key p = Some t) ∧
  ∃ config,
    fetches_since p result.1.2 =
      [EFetch (App.apiBaseUrl +:+ "/auth/login") config] ∧
    JS.get "method" config = Some (VStr "POST").
Proof.
  intros result. unfold result, App.login, App.apiCall, App.apiCall_catch, fetch.
  set (config := App.apiCall_config _ _).
  assert (JS.get "method" config = Some (VStr "POST")) as Hmethod by reflexivity.
  clearbody config.
  assert (∀ key t, getItem key (App.logout (emit (EFetch
             (App.apiBaseUrl +:+ "/auth/login") config) p)) = Some t →
           getItem key p = Some t) as Hlogout.
  { intros key t. unfold getItem; simpl.
    intros [_ [_ H]%lookup_delete_Some]%lookup_delete_Some. done. }
  destruct (net _ config) as [r|e]; cbn [negb];
    [destruct (ok r); cbn [negb];
     [destruct (JS.includes _ _);
      [destruct (JSON_parse (body r)) as [response|]|]|
      destruct (status r =? 401)]|];
    cbn [fst snd];
    try (destruct (App.prop "token" _) as [token|];
         [destruct (App.prop "user" _) as [user|];
          [destruct (JS.truthy token && JS.truthy user)|]|]);
    cbn [fst snd]; intros Hfalse; try discriminate Hfalse;
    (split; [done|]); (split; [by effects|]);
    (split; [try done; intros key t; apply Hlogout|]);
    exists config; (split; [by effects|done]).
Qed.

Lemma login_false_stores_nothing_witness :
  (App.login (api_status 401) "ana@example.org" "x" sample_page).1.1 = false ∧
  (App.login (api_status 401) "ana@example.org" "x" sample_page).2 = [].
Proof.
  assert ((App.login (api_status 401) "ana@example.org" "x" sample_page).1.1 = false)
    as Hfalse by reflexivity.
  split; [exact Hfalse|].
  exact (proj1 (login_false_stores_nothing (api_status 401) "ana@example.org" "x"
                  sample_page Hfalse)).
Defined.

(** *** Paths *)

Lemma prefix_refl (s : string) : String.prefix s s = true.
Proof.
  induction s as [|c s IH]; [done|]. cbn [String.prefix].
  by destruct (ascii_dec c c).
Qed.

Lemma prefix_nil (s : string) : String.prefix "" s = true.
Proof. by destruct s. Qed.

Lemma includes_suffix (s : string) : ∀ a, JS.includes s (a +:+ s) = true.
Proof.
  induction a as [|c a IH].
  - change ("" +:+ s) with s. destruct s; cbn [JS.includes];
      by rewrite ?prefix_refl.
  - change (String c a +:+ s) with (String c (a +:+ s)). cbn [JS.includes].
    rewrite IH. apply orb_true_r.
Qed.

Lemma prefix_app_l (b : string) : ∀ sub a,
  String.prefix sub a = true → String.prefix sub (a +:+ b) = true.
Proof.
  induction sub as [|c sub IH]; intros a; [by rewrite !prefix_nil|].
  destruct a as [|c' a]; [done|].
  change (String c' a +:+ b) with (String c' (a +:+ b)). cbn [String.prefix].
  destruct (ascii_dec c c'); [apply IH|done].
Qed.

Lemma prefix_app_cases (b : string) : ∀ a sub,
  String.prefix sub (a +:+ b) = true →
  String.prefix sub a = true ∨ ∃ t, sub = a +:+ t.
Proof.
  induction a as [|c a IH]; intros sub; [right; by exists sub|].
  destruct sub as [|c' sub]; [by left|].
  change (String c a +:+ b) with (String c (a +:+ b)). cbn [String.prefix].
  destruct (ascii_dec c' c) as [->|]; [|done].
  intros [Hp|[t ->]]%IH; [by left|]. right. by exists t.
Qed.

Lemma has_slash_app (a b : string) :
  has_slash (a +:+ b) = has_slash a || has_slash b.
Proof.
  induction a as [|c a IH]; [done|].
  change (String c a +:+ b) with (String c (a +:+ b)). cbn [has_slash].
  by rewrite IH, orb_assoc.
Qed.

Lemma has_slash_dirname (p : string) : has_slash (dirname p) = has_slash p.
Proof.
  induction p as [|c p IH]; [done|]. cbn [dirname].
  destruct (has_slash (String c p)) eqn:Hs; [|done].
  cbn [has_slash] in *. by rewrite IH.
Qed.

Lemma ends_with_slash_dirname (p : string) : ends_with_slash (dirname p) = true.
Proof.
  induction p as [|c p IH]; [done|]. cbn [dirname].
  destruct (has_slash (String c p)) eqn:Hs; [|done].
  cbn [ends_with_slash]. rewrite IH, andb_true_r.
  cbn [has_slash] in *. by rewrite has_slash_dirname.
Qed.

Lemma dirname_no_slash (s : string) : has_slash s = false → dirname s = "".
Proof. destruct s as [|c s]; [done|]. cbn [dirname]. by intros ->. Qed.

(** A file name put after a directory: the directory is the same. *)
Lemma dirname_landing (s : string) : has_slash s = false →
  ∀ p, dirname (dirname p +:+ s) = dirname p.
Proof.
  intros Hs. induction p as [|c p IH].
  - by apply dirname_no_slash.
  - cbn [dirname]. destruct (has_slash (String c p)) eqn:Hp.
    + change (String c (dirname p) +:+ s) with (String c (dirname p +:+ s)).
      cbn [dirname].
      assert (has_slash (String c (dirname p +:+ s)) = true) as ->.
      { cbn [has_slash] in *.
        by rewrite has_slash_app, has_slash_dirname, Hs, orb_false_r. }
      by rewrite IH.
    + by apply dirname_no_slash.
Qed.

(** A name without a slash is found in a directory followed by a file
    name only inside the one or inside the other. *)
Lemma includes_dir_file (sub file : string) :
  sub ≠ "" → has_slash sub = false →
  ∀ d, ends_with_slash d = true →
       JS.includes sub (d +:+ file) = JS.includes sub d || JS.includes sub file.
Proof.
  intros Hne Hsub. induction d as [|c d IH]; intros Hd.
  - change ("" +:+ file) with file. cbn [JS.includes].
    by destruct sub.
  - cbn [ends_with_slash] in Hd. apply andb_true_iff in Hd as [Hslash Hd].
    change (String c d +:+ file) with (String c (d +:+ file)).
    cbn [JS.includes]. rewrite (IH Hd), orb_assoc. f_equal. f_equal.
    change (String c (d +:+ file)) with (String c d +:+ file).
    destruct (String.prefix sub (String c d +:+ file)) eqn:Hp.
    + apply prefix_app_cases in Hp as [Hp|[t ->]]; [done|].
      rewrite has_slash_app, Hslash in Hsub. done.
    + destruct (String.prefix sub (String c d)) eqn:Hp'; [|done].
      apply (prefix_app_l file) in Hp'. congruence.
Qed.

Lemma on_auth_page_landing (path : string) :
  on_auth_page (landing path "Login.html") = true ∧
  on_auth_page (landing path "Home.html") = on_auth_page (dirname path).
Proof.
  unfold on_auth_page, landing. split.
  - by rewrite includes_suffix.
  - rewrite !includes_dir_file
      by first [done|apply ends_with_slash_dirname].
    change (JS.includes "Login.html" "Home.html") with false.
    change (JS.includes "RegistrarUsuario.html" "Home.html") with false.
    by rewrite !orb_false_r.
Qed.

(** X5.  [checkAuthStatus] only ever navigates: the storage is left as
    it is.  It lets the page be exactly when a token is stored and the
    page is not the login or registration page, or no token is stored
    and the page is one of those two; otherwise it sends a session to
    [Home.html] and a visitor to [Login.html].  A visitor's redirect is
    never followed by a second one: on the page it leads to, the check
    passes.  A session's redirect leads to a page where the check
    passes exactly when no directory of the path has [Login.html] or
    [RegistrarUsuario.html] in its name; when one has, as in
    [/Login.html/x], the page it leads to is again taken for the login
    page, the check fails there and redirects to that same page, and so
    on for ever. *)
Theorem checkAuthStatus_redirects_once (path : string) (p : page) :
  let token := text_truthy (getItem "authToken" p) in
  let result := App.checkAuthStatus path p in
  localStorage result.2 = localStorage p ∧
  (result.1 = true ↔ token = negb (on_auth_page path)) ∧
  (result.1 = true → result.2 = p) ∧
  (result.1 = false →
   result.2 = navigate (if token then "Home.html" else "Login.html") p) ∧
  (result.1 = false → token = false →
   App.checkAuthStatus (landing path "Login.html") result.2 = (true, result.2)) ∧
  (result.1 = false → token = true →
   let home := landing path "Home.html" in
   on_auth_page home = on_auth_page (dirname path) ∧
   (on_auth_page (dirname path) = false →
    App.checkAuthStatus home result.2 = (true, result.2)) ∧
   (on_auth_page (dirname path) = true →
    App.checkAuthStatus home result.2 = (false, navigate "Home.html" result.2) ∧
    landing home "Home.html" = home)).
Proof.
  intros token result.
  assert (∀ href path',
            App.checkAuthStatus path' (navigate href p) =
              if negb token && negb (on_auth_page path')
              then (false, navigate "Login.html" (navigate href p))
              else if token && on_auth_page path'
              then (false, navigate "Home.html" (navigate href p))
              else (true, navigate href p)) as Hlands.
  { intros href path'. unfold App.checkAuthStatus, on_auth_page.
    change (getItem "authToken" (navigate href p)) with (getItem "authToken" p).
    fold token.
    by destruct token, (JS.includes "Login.html" path'),
      (JS.includes "RegistrarUsuario.html" path'). }
  destruct (on_auth_page_landing path) as [Hlogin Hhome].
  assert (result =
            if negb token && negb (on_auth_page path)
            then (false, navigate "Login.html" p)
            else if token && on_auth_page path
            then (false, navigate "Home.html" p)
            else (true, p)) as ->.
  { unfold result, App.checkAuthStatus, on_auth_page. fold token.
    by destruct token, (JS.includes "Login.html" path),
      (JS.includes "RegistrarUsuario.html" path). }
  destruct token eqn:Htoken, (on_auth_page path) eqn:Hpage; cbn;
    (split; [done|]); (split; [done|]); (split; [done|]); (split; [done|]);
    (split; [intros Hfalse Htf; try discriminate Hfalse; try discriminate Htf|
             intros Hfalse Htf; try discriminate Hfalse; try discriminate Htf]).
  - split; [done|]. split; intros Hdir.
    + rewrite Hlands, Hhome, Hdir. done.
    + rewrite Hlands, Hhome, Hdir. split; [done|].
      unfold landing. by rewrite dirname_landing.
  - by rewrite Hlands, Hlogin.
Qed.

Lemma checkAuthStatus_redirects_once_witness :
  landing "/Login.html" "Home.html" = "/Home.html" ∧
  (App.checkAuthStatus "/Home.html"
     (App.checkAuthStatus "/Login.html" sample_page).2).1 = true ∧
  landing "/Login.html/x" "Home.html" = "/Login.html/Home.html" ∧
  (App.checkAuthStatus "/Login.html/Home.html"
     (App.checkAuthStatus "/Login.html/x" sample_page).2).1 = false.
Proof.
  split; [reflexivity|]. split; [|split; [reflexivity|]].
  - destruct (checkAuthStatus_redirects_once "/Login.html" sample_page)
      as (_ & _ & _ & _ & _ & Hsession).
    destruct (Hsession eq_refl eq_refl) as (_ & Hpass & _).
    exact (f_equal fst (Hpass eq_refl)).
  - destruct (checkAuthStatus_redirects_once "/Login.html/x" sample_page)
      as (_ & _ & _ & _ & _ & Hsession).
    destruct (Hsession eq_refl eq_refl) as (_ & _ & Hloop).
    exact (f_equal fst (proj1 (Hloop eq_refl))).
Defined.

(** ** Changing the status of a report: further properties *)

(** X6.  The status only moves forward and settles: the next status is
    [En Progreso] from [Enviado] and [Resuelto] from anything else, so
    it is never [Enviado], two changes reach [Resuelto] from any text,
    [Resuelto] stays, and the badge of a changed status is never the
    pending one. *)
Theorem nextStatus_settles (currentStatus : string) :
  (App.nextStatus currentStatus = "En Progreso" ↔ currentStatus = "Enviado") ∧
  (App.nextStatus currentStatus = "Resuelto" ↔ currentStatus ≠ "Enviado") ∧
  App.nextStatus currentStatus ≠ "Enviado" ∧
  App.nextStatus (App.nextStatus currentStatus) = "Resuelto" ∧
  (currentStatus = "Resuelto" → App.nextStatus currentStatus = currentStatus) ∧
  App.getStatusClass (Some (VStr (App.nextStatus currentStatus))) ≠ "pending".
Proof.
  unfold App.nextStatus.
  destruct (String.eqb_spec currentStatus "Enviado") as [->|Hne]; simpl.
  - repeat split; first [done|intros; congruence].
  - destruct (String.eqb_spec currentStatus "En Progreso"); simpl;
      repeat split; first [done|intros; congruence].
Qed.

(** The page a status change made offline leaves. *)
Lemma handleStatusChange_offline_page net now id currentStatus p q :
  readQueue p = Some q → id ≠ "" →
  App.handleStatusChange net now false (Some id) (Some currentStatus) p =
    (Resolved (Some (App.nextStatus currentStatus)),
     App.showMessage
       "Estado guardado offline ✔ Se sincronizará cuando vuelva el internet."
       3000
       (App.registerBackgroundSync
          (App.showMessage
             "Acción guardada para sincronizar cuando haya conexión." 3000
             (setItem "syncQueue"
                (JSON_stringify
                   (VArr (q ++
                      [VObj [ ("id", VNum now);
                              ("url", VStr ("/Reports/" +:+ id +:+ "/estado"));
                              ("method", VStr "PUT");
                              ("body",
                               VObj [("estado",
                                      VStr (App.nextStatus currentStatus))]) ]])))
                p)))).
Proof.
  intros Hq Hid. unfold App.handleStatusChange.
  destruct (String.eqb_spec id ""); [done|]. cbn [negb].
  by rewrite (enqueueSyncAction_spec _ _ _ _ Hq).
Qed.

Lemma handleStatusChange_offline_spec
    (net : string → object → FetchResult) (now : Z) (id currentStatus : string)
    (p : page) (q : list value) :
  readQueue p = Some q → id ≠ "" →
  (App.handleStatusChange net now false (Some id) (Some currentStatus) p).1 =
    Resolved (Some (App.nextStatus currentStatus)) ∧
  readQueue (App.handleStatusChange net now false (Some id) (Some currentStatus) p).2 =
    Some (q ++
      [VObj [ ("id", VNum now);
              ("url", VStr ("/Reports/" +:+ id +:+ "/estado"));
              ("method", VStr "PUT");
              ("body", VObj [("estado", VStr (App.nextStatus currentStatus))]) ]]) ∧
  fetches_since p
    (App.handleStatusChange net now false (Some id) (Some currentStatus) p).2 = [] ∧
  (∀ key, key ≠ "syncQueue" →
     getItem key (App.handleStatusChange net now false (Some id) (Some currentStatus) p).2 =
     getItem key p).
Proof.
  intros Hq Hid.
  rewrite (handleStatusChange_offline_page _ _ _ _ _ _ Hq Hid). cbn [fst snd].
  split; [done|]. split; [|split].
  - erewrite readQueue_storage; [apply readQueue_stored|].
    simpl. by rewrite localStorage_registerBackgroundSync.
  - unfold App.registerBackgroundSync. destruct (syncSupported _); by effects.
  - intros key Hkey. unfold getItem. simpl.
    rewrite localStorage_registerBackgroundSync. simpl.
    by apply lookup_insert_ne.
Qed.

(** X7.  Offline, on a page that has the status element, a status
    change reaches no network: it appends to the persisted queue one
    action, the [PUT] of the next status to
    [/Reports/<id>/estado] with the clock reading as its id, leaves the
    rest of the storage alone, and reports the next status as the text
    to show. *)
Theorem handleStatusChange_offline_enqueues
    (net : string → object → FetchResult) (now : Z) (id currentStatus : string)
    (p : page) (q : list value) :
  readQueue p = Some q → id ≠ "" →
  let result := App.handleStatusChange net now false (Some id) (Some currentStatus) p in
  result.1 = Resolved (Some (App.nextStatus currentStatus)) ∧
  readQueue result.2 =
    Some (q ++
      [VObj [ ("id", VNum now);
              ("url", VStr ("/Reports/" +:+ id +:+ "/estado"));
              ("method", VStr "PUT");
              ("body", VObj [("estado", VStr (App.nextStatus currentStatus))]) ]]) ∧
  fetches_since p result.2 = [] ∧
  (∀ key, key ≠ "syncQueue" → getItem key result.2 = getItem key p).
Proof.
  intros Hq Hid result. by apply handleStatusChange_offline_spec.
Qed.

Lemma handleStatusChange_offline_enqueues_witness :
  readQueue blank_page = Some [] ∧ "42" ≠ "" ∧
  readQueue
    (App.handleStatusChange (api_status 200) 1700000000000 false (Some "42")
       (Some "En Progreso") blank_page).2 =
    Some [entry_of (1700000000000, estado_action "42" "Resuelto")].
Proof.
  assert (readQueue blank_page = Some []) as Hq by reflexivity.
  assert ("42" ≠ "") as Hid by discriminate.
  split; [exact Hq|]. split; [exact Hid|].
  exact (proj1 (proj2 (handleStatusChange_offline_enqueues (api_status 200)
                         1700000000000 "42" "En Progreso" blank_page [] Hq Hid))).
Defined.

(** X8.  Online, a status change never touches the queue, whatever the
    network does, a transport error included: the stored queue is the
    one it found.  Without an id it resolves at once and sends
    nothing.  With an id, on a page that has the element
    [#report-details-status] it sends one request, the [PUT] to
    [/Reports/<id>/estado], and resolves, reporting a new text for the
    status exactly when the request was answered well; on a page
    without the element it fails where it reads the text, before any
    request or message, and the page is left as it was. *)
Theorem handleStatusChange_online_never_enqueues
    (net : string → object → FetchResult) (now : Z) (reportId : option string)
    (statusElement : option string) (p : page) :
  let result := App.handleStatusChange net now true reportId statusElement p in
  getItem "syncQueue" result.2 = getItem "syncQueue" p ∧
  ((reportId = None ∨ reportId = Some "") →
   result.1 = Resolved None ∧ fetches_since p result.2 = []) ∧
  (∀ id, reportId = Some id → id ≠ "" → statusElement = None →
     (∃ e, result.1 = Rejected e) ∧ result.2 = p) ∧
  (∀ id currentStatus,
     reportId = Some id → id ≠ "" → statusElement = Some currentStatus →
     (∃ config,
        fetches_since p result.2 =
          [EFetch (App.apiBaseUrl +:+ "/Reports/" +:+ id +:+ "/estado") config] ∧
        JS.get "method" config = Some (VStr "PUT")) ∧
     result.1 =
       Resolved
         match (App.apiCall net ("/Reports/" +:+ id +:+ "/estado")
                  (App.status_request (App.nextStatus currentStatus)) p).1 with
         | Resolved _ => Some (App.nextStatus currentStatus)
         | Rejected _ => None
         end).
Proof.
  intros result. unfold result, App.handleStatusChange.
  destruct reportId as [id|].
  2:{ cbn. split; [done|]. split; [intros _; split; [done|by effects]|].
      split; done. }
  destruct (String.eqb_spec id "") as [->|Hid].
  { cbn. split; [done|]. split; [intros _; split; [done|by effects]|].
    split; [by intros id' [= <-] ?|by intros id' ? [= <-] ?]. }
  destruct statusElement as [currentStatus|].
  2:{ cbn. split; [done|]. split; [by intros [[=]|[= ->]]|].
      split; [|done]. intros id' _ _ _. split; [by eexists|done]. }
  cbn [negb].
  set (endpoint := "/Reports/" +:+ id +:+ "/estado").
  set (options := App.status_request _).
  assert (∃ call,
            App.apiCall net endpoint options p = call ∧
            getItem "syncQueue" call.2 = getItem "syncQueue" p ∧
            ∃ config,
              fetches_since p call.2 = [EFetch (App.apiBaseUrl +:+ endpoint) config] ∧
              JS.get "method" config = Some (VStr "PUT") ∧
              ∀ m d, fetches_since p (App.showMessage m d call.2) =
                     [EFetch (App.apiBaseUrl +:+ endpoint) config]) as Hcall.
  { eexists. split; [done|].
    unfold App.apiCall, App.apiCall_catch, fetch.
    set (config := App.apiCall_config _ _).
    assert (JS.get "method" config = Some (VStr "PUT")) as Hm by reflexivity.
    clearbody config.
    destruct (net _ config) as [r|e]; cbn [negb];
      [destruct (ok r); cbn [negb];
       [destruct (JS.includes _ _);
        [destruct (JSON_parse (body r))|]|
        destruct (status r =? 401)]|];
      cbn [fst snd];
      (split; [try done; unfold getItem; simpl;
               by rewrite !lookup_delete_ne by done|]);
      exists config; (split; [by effects|]); (split; [done|]);
      intros m d; by effects. }
  destruct Hcall as (call & Hcalleq & Hqueue & config & Hf & Hm & Hf').
  rewrite Hcalleq.
  split; [by destruct call as [[v|e] p']|].
  split; [intros [[=]|[= ->]]; by destruct Hid|].
  split; [done|].
  intros id' currentStatus' [= <-] _ [= <-]. fold endpoint. fold options.
  rewrite Hcalleq.
  destruct call as [[v|e] p']; cbn [fst snd] in *;
    (split; [exists config; by split|done]).
Qed.

(** ** Requests: what is sent, and how often *)

Lemma no_fetch_filter es :
  Forall (λ e, is_fetch e = false) es →
  filter (λ e, is_fetch e = true) es = [].
Proof.
  induction 1 as [|e es He _ IH]; [done|].
  rewrite filter_cons, IH. case_decide; [congruence|done].
Qed.

Lemma all_fetch_filter es :
  Forall (λ e, is_fetch e = true) es →
  filter (λ e, is_fetch e = true) es = es.
Proof.
  induction 1 as [|e es He _ IH]; [done|].
  rewrite filter_cons, IH. by case_decide.
Qed.

Lemma fetches_since_app p p' es :
  log p' = log p ++ es →
  fetches_since p p' = filter (λ e, is_fetch e = true) es.
Proof. intros Hlog. unfold fetches_since. by rewrite (effects_since_app _ _ _ Hlog). Qed.

Lemma requests_of_fetch token q :
  Forall (λ e, is_fetch e = true) (requests_of token q).
Proof.
  induction q as [|a q IH]; [constructor|].
  unfold requests_of in *. cbn [omap list_omap].
  destruct (App.replay_request token a) as [[u c]|]; simpl; [|done].
  by constructor.
Qed.

Lemma requests_of_app token q1 q2 :
  requests_of token (q1 ++ q2) = requests_of token q1 ++ requests_of token q2.
Proof. apply omap_app. Qed.

(** The loop logs the request of each action, in order, and nothing
    else. *)
Lemma replayFrom_log net q : ∀ i failed p,
  log (App.replayFrom net i q (failed, p)).2 =
  log p ++ requests_of (getItem "authToken" p) q.
Proof.
  induction q as [|a q IH]; intros i failed p; cbn [App.replayFrom].
  - by rewrite app_nil_r.
  - unfold App.replayAction at 1.
    unfold requests_of. cbn [omap list_omap]. fold (requests_of (getItem "authToken" p) q).
    destruct (App.replay_request (getItem "authToken" p) a) as [[u c]|];
      cbn [fmap option_fmap option_map fetch];
      [destruct (net i u c) as [r|e]; [destruct (negb (ok r))|]|];
      rewrite IH; simpl; by rewrite <- ?app_assoc.
Qed.

(** One call of [apiCall] logs its request first, and no other. *)
Lemma apiCall_log net endpoint options p :
  ∃ rest,
    log (App.apiCall net endpoint options p).2 =
      log p ++
      EFetch (App.apiBaseUrl +:+ endpoint)
        (App.apiCall_config (getItem "authToken" p) options) :: rest ∧
    Forall (λ e, is_fetch e = false) rest.
Proof.
  unfold App.apiCall, App.apiCall_catch, fetch.
  destruct (net _ _) as [r|e]; cbn [negb];
    [destruct (ok r); cbn [negb];
     [destruct (JS.includes _ _);
      [destruct (JSON_parse (body r))|]|
      destruct (status r =? 401)]|];
    cbn [fst snd]; eexists; simpl; rewrite <- ?app_assoc;
    (split; [reflexivity|repeat constructor]).
Qed.

Lemma processSyncQueue_unfold net p q :
  readQueue p = Some q → q ≠ [] →
  App.processSyncQueue net p =
    (Resolved (),
     App.finishSync
       (App.replayFrom net 0 q
          ([], App.showMessage "Sincronizando acciones pendientes..." 3000 p))).
Proof.
  intros Hq Hne. unfold App.processSyncQueue.
  rewrite (readQueue_parse _ _ Hq). by destruct q.
Qed.

Lemma processSyncQueue_fetches net p q :
  readQueue p = Some q →
  fetches_since p (App.processSyncQueue net p).2 =
    requests_of (getItem "authToken" p) q.
Proof.
  intros Hq. destruct (decide (q = [])) as [->|Hne].
  - rewrite processSyncQueue_empty by done. unfold fetches_since, effects_since.
    by rewrite drop_all.
  - rewrite (processSyncQueue_unfold _ _ _ Hq Hne). cbn [snd].
    pose proof (replayFrom_log net q 0 []
                  (App.showMessage "Sincronizando acciones pendientes..." 3000 p))
      as Hlog.
    destruct (App.replayFrom net 0 q _) as [failed p2]. cbn [snd] in Hlog.
    destruct (finishSync_log failed p2) as (m & d & Hfin).
    rewrite (fetches_since_app p _
               (EShowMessage "Sincronizando acciones pendientes..." 3000 ::
                requests_of (getItem "authToken" p) q ++
                [ESetItem "syncQueue" (JSON_stringify (VArr failed));
                 EShowMessage m d])).
    + rewrite filter_cons. case_decide; [done|].
      rewrite filter_app, all_fetch_filter by apply requests_of_fetch.
      rewrite filter_cons. case_decide; [done|].
      rewrite filter_cons. case_decide; [done|]. by rewrite app_nil_r.
    + rewrite Hfin, Hlog. simpl. by rewrite <- !app_assoc.
Qed.

Lemma prefix_append (s t : string) : String.prefix s (s +:+ t) = true.
Proof.
  induction s as [|c s IH]; simpl; [by destruct t|].
  by destruct (ascii_dec c c).
Qed.

(** X9.  A drain sends one request for each queued action, in the
    order of the queue, each to the action's [url] appended to the API
    base, and which requests it sends does not depend on the answers
    it gets: a failure midway does not stop the pass, and a success
    does not reorder it. *)
Theorem processSyncQueue_replays_in_order
    (net net' : nat → string → object → FetchResult) (p : page) (q : list value) :
  readQueue p = Some q →
  Forall is_action q →
  let token := getItem "authToken" p in
  fetches_since p (App.processSyncQueue net p).2 = requests_of token q ∧
  fetches_since p (App.processSyncQueue net' p).2 =
    fetches_since p (App.processSyncQueue net p).2 ∧
  length (requests_of token q) = length q ∧
  (∀ i a, q !! i = Some a →
     ∃ url config,
       requests_of token q !! i = Some (EFetch url config) ∧
       url = App.apiBaseUrl +:+ JS.interpolate (action_url a) ∧
       JS.startsWith App.apiBaseUrl url = true).
Proof.
  intros Hq Hact token.
  split; [by apply processSyncQueue_fetches|].
  split; [by rewrite !(processSyncQueue_fetches _ _ _ Hq)|].
  assert (requests_of token q =
          (λ a, EFetch (App.apiBaseUrl +:+ JS.interpolate (action_url a))
                  (default [] (snd <$> App.replay_request token a))) <$> q) as Hmap.
  { clear Hq. induction Hact as [|a q [o ->] _ IH]; [done|].
    unfold requests_of in *. cbn [omap list_omap fmap list_fmap].
    rewrite IH. clear IH. unfold App.replay_request. simpl.
    by destruct (JS.get "body" o) as [b|]. }
  split; [by rewrite Hmap, length_fmap|].
  intros i a Hi. do 2 eexists. rewrite Hmap, list_lookup_fmap, Hi. simpl.
  split; [reflexivity|]. split; [reflexivity|]. apply prefix_append.
Qed.

Lemma processSyncQueue_replays_in_order_witness :
  readQueue sample_page = Some (entry_of <$> sample_calls) ∧
  Forall is_action (entry_of <$> sample_calls) ∧
  length (fetches_since sample_page
            (App.processSyncQueue net_first_only sample_page).2) = 2%nat.
Proof.
  assert (readQueue sample_page = Some (entry_of <$> sample_calls)) as Hq
    by reflexivity.
  assert (Forall is_action (entry_of <$> sample_calls)) as Hact
    by (repeat constructor; eexists; reflexivity).
  split; [exact Hq|]. split; [exact Hact|].
  destruct (processSyncQueue_replays_in_order net_first_only net_first_only
              sample_page _ Hq Hact) as (Hf & _ & Hlen & _).
  rewrite Hf. exact Hlen.
Defined.

Lemma replay_of_status_change token now url next :
  App.replay_request token
    (VObj [ ("id", VNum now); ("url", VStr url); ("method", VStr "PUT");
            ("body", VObj [("estado", VStr next)]) ]) =
  Some (App.apiBaseUrl +:+ url,
        App.apiCall_config token (App.status_request next)).
Proof.
  unfold App.replay_request, App.apiCall_config, App.bearer.
  destruct token as [[s|v]|]; simpl; try destruct (String.eqb s ""); reflexivity.
Qed.

(** X10.  What was deferred is replayed as it would have been sent: on
    a page that has the status element, the
    request a drain makes for a status change that was queued offline
    is, URL, method, headers and body, the request the same status
    change makes online, for the same stored token.  The drain makes
    it after the requests of the actions that were queued before. *)
Theorem deferred_request_is_the_direct_request
    (net_offline net_online : string → object → FetchResult)
    (net : nat → string → object → FetchResult)
    (now : Z) (id currentStatus : string) (p : page) (q : list value) :
  readQueue p = Some q → id ≠ "" →
  let queued :=
    (App.handleStatusChange net_offline now false (Some id)
       (Some currentStatus) p).2 in
  let direct :=
    (App.handleStatusChange net_online now true (Some id)
       (Some currentStatus) p).2 in
  fetches_since queued (App.processSyncQueue net queued).2 =
    requests_of (getItem "authToken" p) q ++ fetches_since p direct.
Proof.
  intros Hq Hid queued direct.
  destruct (handleStatusChange_offline_spec net_offline now id currentStatus
              p q Hq Hid) as (_ & Hqueued & _ & Hframe).
  fold queued in Hqueued, Hframe.
  rewrite (processSyncQueue_fetches _ _ _ Hqueued), Hframe by done.
  rewrite requests_of_app. f_equal.
  unfold requests_of at 1. cbn [omap list_omap].
  rewrite replay_of_status_change. cbn [fmap option_fmap option_map fst snd].
  unfold direct, App.handleStatusChange.
  destruct (String.eqb_spec id ""); [done|]. cbn [negb].
  destruct (apiCall_log net_online ("/Reports/" +:+ id +:+ "/estado")
              (App.status_request (App.nextStatus currentStatus)) p)
    as (rest & Hlog & Hrest).
  destruct (App.apiCall _ _ _ _) as [[v|e] p']; cbn [fst snd] in *;
    (erewrite fetches_since_app;
     [|simpl; rewrite Hlog, <- app_assoc; reflexivity]);
    simpl; rewrite filter_cons; (case_decide; [|done]);
    rewrite filter_app, (no_fetch_filter _ Hrest); simpl;
    by (rewrite filter_cons; (case_decide; [done|])).
Qed.

Lemma deferred_request_is_the_direct_request_witness :
  readQueue sample_page = Some (entry_of <$> sample_calls) ∧ "9" ≠ "" ∧
  last (fetches_since
          (App.handleStatusChange (api_status 200) 1700000000500 false (Some "9")
             (Some "Enviado") sample_page).2
          (App.processSyncQueue (net_status 200)
             (App.handleStatusChange (api_status 200) 1700000000500 false
                (Some "9") (Some "Enviado") sample_page).2).2) =
    head (fetches_since sample_page
            (App.handleStatusChange (api_status 500) 1700000000500 true (Some "9")
               (Some "Enviado") sample_page).2).
Proof.
  assert (readQueue sample_page = Some (entry_of <$> sample_calls)) as Hq
    by reflexivity.
  assert ("9" ≠ "") as Hid by discriminate.
  split; [exact Hq|]. split; [exact Hid|].
  rewrite (deferred_request_is_the_direct_request (api_status 200) (api_status 500)
             (net_status 200) 1700000000500 "9" "Enviado" sample_page _ Hq Hid).
  reflexivity.
Defined.

(** X11.  Every [apiCall] makes exactly one request.  Unless the answer
    is a 401 it leaves the storage, [App.currentUser] and the location
    alone.  It resolves only on an ok response, with the parsed body
    when the content type says JSON and with the text otherwise, and
    then has no effect but the request; every failure, a response that
    is not ok, a transport error or a JSON body that does not parse,
    ends with the error toast. *)
Theorem apiCall_one_request
    (net : string → object → FetchResult) (endpoint : string)
    (options : object) (p : page) :
  let url := App.apiBaseUrl +:+ endpoint in
  let config := App.apiCall_config (getItem "authToken" p) options in
  let call := App.apiCall net endpoint options p in
  fetches_since p call.2 = [EFetch url config] ∧
  ((∀ r, net url config = Resp r → status r ≠ 401) →
   localStorage call.2 = localStorage p ∧
   currentUser call.2 = currentUser p ∧
   location_href call.2 = location_href p) ∧
  (∀ v, call.1 = Resolved v →
     effects_since p call.2 = [EFetch url config] ∧
     ∃ r, net url config = Resp r ∧ ok r = true ∧
       if JS.includes "application/json" (default "" (content_type r))
       then JSON_parse (body r) = Some v
       else v = VStr (text_string (body r))) ∧
  (∀ e, call.1 = Rejected e →
     last (effects_since p call.2) =
       Some (EShowMessage
               "Error de conexión. Revisa la consola para más detalles." 5000)).
Proof.
  intros url config call.
  unfold call, App.apiCall, App.apiCall_catch, fetch. fold url. fold config.
  destruct (net url config) as [r|e] eqn:Hnet; cbn [negb];
    [destruct (ok r) eqn:Hok; cbn [negb];
     [destruct (JS.includes _ _) eqn:Hjson;
      [destruct (JSON_parse (body r)) as [parsed|] eqn:Hparse|]|
      destruct (status r =? 401) eqn:H401]|];
    cbn [fst snd];
    (split; [by effects|]);
    (split;
     [try done; intros Hnot;
      exfalso; apply (Hnot r eq_refl); by apply Z.eqb_eq|]);
    (split; [|intros e' He'; try discriminate He'; by effects]);
    intros w Hw; try discriminate Hw; injection Hw as <-;
    (split; [by effects|]); exists r; rewrite Hjson; done.
Qed.

(** ** What starts a drain: further properties *)

(** X12.  The [message] listener reacts to one message only: data that
    is an object whose [type] is the string [SYNC_NOW] makes it run the
    drain, whatever else the object holds; any other data, [null] or
    none leaves the page exactly as it is. *)
Theorem onMessage_only_sync_now
    (net : nat → string → object → FetchResult) (data : option value) (p : page) :
  (∀ o, data = Some (VObj o) → JS.get "type" o = Some (VStr "SYNC_NOW") →
        App.onMessage net data p = (App.processSyncQueue net p).2) ∧
  ((∀ o, data = Some (VObj o) → JS.get "type" o ≠ Some (VStr "SYNC_NOW")) →
   App.onMessage net data p = p).
Proof.
  split.
  - intros o -> Htype. unfold App.onMessage. simpl. rewrite Htype. simpl. done.
  - intros Hother. unfold App.onMessage.
    destruct data as [[| | | | |o]|]; simpl; try done; try by repeat case_match.
    specialize (Hother o eq_refl).
    destruct (JS.get "type" o) as [[| | |s| |]|]; simpl; try done.
    destruct (String.eqb_spec s "SYNC_NOW") as [->|]; [done|done].
Qed.

Lemma onMessage_only_sync_now_witness :
  App.onMessage net_first_only
    (Some (VObj [("type", VStr "SYNC_NOW"); ("sentAt", VNum 3)])) sample_page =
    (App.processSyncQueue net_first_only sample_page).2.
Proof.
  exact (proj1 (onMessage_only_sync_now net_first_only _ sample_page)
           [("type", VStr "SYNC_NOW"); ("sentAt", VNum 3)] eq_refl eq_refl).
Defined.

Lemma run_ready_all (callbacks : list ready_callback) : ∀ p,
  log (fold_left run_ready callbacks p) =
    (log p ++ (registration_of <$> callbacks)) ∧
  localStorage (fold_left run_ready callbacks p) = localStorage p ∧
  whenReady (fold_left run_ready callbacks p) = whenReady p.
Proof.
  induction callbacks as [|[tag] callbacks IH]; intros p; simpl.
  - by rewrite app_nil_r.
  - destruct (IH (emit (ESyncRegister tag) p)) as (-> & -> & ->).
    simpl. by rewrite <- app_assoc.
Qed.

Lemma serviceWorkerReady_spec (p : page) :
  effects_since p (serviceWorkerReady p) = (registration_of <$> whenReady p) ∧
  localStorage (serviceWorkerReady p) = localStorage p ∧
  whenReady (serviceWorkerReady p) = [].
Proof.
  unfold serviceWorkerReady, effects_since.
  destruct (run_ready_all (whenReady p)
              (mkPage (localStorage p) (currentUser p) (location_href p)
                 (syncSupported p) (log p) [])) as (-> & -> & ->).
  simpl. by rewrite drop_app_length.
Qed.

(** X13.  The chain from a queued action to its drain, link by link.
    [enqueueSyncAction] registers nothing itself: when it returns no
    registration has been asked for, and where background sync is
    offered one callback more waits for the worker (none where it is
    not).  The registrations are asked for when a worker is active and
    the waiting callbacks run, one for each callback and in their
    order, the storage untouched; until then, and for ever where no
    worker becomes active, there is none.  The tag asked for is the one
    the worker's [sync] handler answers, by posting one message to the
    first client it finds and to no other, and that message is one the
    page's listener answers with a drain.  Any other tag is ignored,
    and with no client to post to the handler fails. *)
Theorem sync_chain_is_connected
    (now : Z) (action : object) (p : page) (q : list value) :
  readQueue p = Some q →
  let p1 := (App.enqueueSyncAction now action p).2 in
  ∃ tag,
    filter (λ e, is_sync_register e = true) (effects_since p p1) = [] ∧
    whenReady p1 =
      (whenReady p ++ if syncSupported p then [RegisterSync tag] else []) ∧
    effects_since p1 (serviceWorkerReady p1) =
      ((registration_of <$> whenReady p) ++
       if syncSupported p then [ESyncRegister tag] else []) ∧
    localStorage (serviceWorkerReady p1) = localStorage p1 ∧
    whenReady (serviceWorkerReady p1) = [] ∧
    (∀ client others, ∃ data,
       SW.onSync tag (client :: others) = Resolved [(client, data)] ∧
       ∀ net p', App.onMessage net (Some data) p' = (App.processSyncQueue net p').2) ∧
    (∃ e, SW.onSync tag [] = Rejected e) ∧
    (∀ tag' clients, tag' ≠ tag → SW.onSync tag' clients = Resolved []).
Proof.
  intros Hq p1. exists "sync-report-actions".
  assert (whenReady p1 =
            (whenReady p ++
             if syncSupported p then [RegisterSync "sync-report-actions"] else []))
    as Hwait.
  { unfold p1. rewrite (enqueueSyncAction_spec _ _ _ _ Hq). cbn [snd].
    unfold App.registerBackgroundSync. simpl.
    destruct (syncSupported p); simpl; by rewrite ?app_nil_r. }
  destruct (serviceWorkerReady_spec p1) as (Hrun & Hstorage & Hdone).
  split; [|split; [done|split; [|split; [done|split; [done|split; [|split]]]]]].
  - unfold p1. rewrite (enqueueSyncAction_spec _ _ _ _ Hq). cbn [snd].
    unfold App.registerBackgroundSync, effects_since.
    destruct (syncSupported _); simpl; by rewrite <- ?app_assoc, drop_app_length.
  - rewrite Hrun, Hwait, fmap_app. by destruct (syncSupported p).
  - intros client others. eexists. split; [reflexivity|]. done.
  - by eexists.
  - intros tag' clients Hne. unfold SW.onSync.
    by destruct (String.eqb_spec tag' "sync-report-actions").
Qed.

Lemma sync_chain_is_connected_witness :
  readQueue blank_page = Some [] ∧
  ∃ tag data,
    effects_since
      (App.enqueueSyncAction 1700000000000 (estado_action "42" "Resuelto")
         blank_page).2
      (serviceWorkerReady
         (App.enqueueSyncAction 1700000000000 (estado_action "42" "Resuelto")
            blank_page).2) = [ESyncRegister tag] ∧
    SW.onSync tag ["page-1"; "page-2"] = Resolved [("page-1", data)].
Proof.
  split; [reflexivity|].
  destruct (sync_chain_is_connected 1700000000000 (estado_action "42" "Resuelto")
              blank_page [] eq_refl) as (tag & _ & _ & Hrun & _ & _ & Hpost & _).
  destruct (Hpost "page-1" ["page-2"]) as (data & Hdata & _).
  exists tag, data. split; [exact Hrun|exact Hdata].
Defined.

(** ** [escapeHtml]: properties *)

Lemma append_nil_r (s : string) : s +:+ "" = s.
Proof.
  induction s as [|c s IH]; [done|].
  change (String c (s +:+ "") = String c s). by rewrite IH.
Qed.

Lemma concat_cons (x : string) (xs : list string) :
  String.concat "" (x :: xs) = x +:+ String.concat "" xs.
Proof. destruct xs; [symmetry; apply append_nil_r|reflexivity]. Qed.

Lemma list_ascii_append (s t : string) :
  list_ascii_of_string (s +:+ t) = list_ascii_of_string s ++ list_ascii_of_string t.
Proof.
  induction s as [|c s IH]; [done|].
  change (c :: list_ascii_of_string (s +:+ t) =
          c :: list_ascii_of_string s ++ list_ascii_of_string t).
  by rewrite IH.
Qed.

Lemma append_assoc (s t u : string) : (s +:+ t) +:+ u = s +:+ (t +:+ u).
Proof.
  induction s as [|c s IH]; [done|].
  change (String c ((s +:+ t) +:+ u) = String c (s +:+ (t +:+ u))).
  by rewrite IH.
Qed.

(** On a string, [escapeHtml] is the replacement, character by
    character; the empty string needs no special case. *)
Lemma escapeHtml_string (s : string) :
  App.escapeHtml (Some (VStr s)) =
  String.concat "" (App.entity <$> list_ascii_of_string s).
Proof. unfold App.escapeHtml. destruct s; reflexivity. Qed.

Lemma entity_plain (c : ascii) : html_special c = false → App.entity c = String c "".
Proof.
  unfold html_special, App.entity. intros H.
  repeat (apply orb_false_iff in H as [H ?]). by repeat case_match.
Qed.

Lemma entity_safe (c : ascii) :
  Forall (λ d, html_special d = true → d = "&"%char)
    (list_ascii_of_string (App.entity c)).
Proof.
  unfold App.entity.
  repeat (case_match; [repeat constructor; by intros [=]|]).
  repeat constructor. intros Hc. unfold html_special in Hc.
  repeat match goal with H : Ascii.eqb c _ = false |- _ => rewrite H in Hc end.
  done.
Qed.

Lemma concat_entities_safe (l : list ascii) :
  Forall (λ d, html_special d = true → d = "&"%char)
    (list_ascii_of_string (String.concat "" (App.entity <$> l))).
Proof.
  induction l as [|c l IH]; [constructor|].
  cbn [fmap list_fmap]. rewrite concat_cons, list_ascii_append.
  apply Forall_app. split; [apply entity_safe|done].
Qed.

(** X14.  Whatever it is given, [escapeHtml] returns text in which none
    of [<], [>], the two quotes, the backquote, [=] and [/] occurs: of
    the characters it replaces only [&] is left, and it opens an
    entity.  [null], [undefined], [false] and the empty string give the
    empty text; the number zero gives ["0"]. *)
Theorem escapeHtml_leaves_no_markup (unsafe : option value) :
  Forall (λ d, html_special d = true → d = "&"%char)
    (list_ascii_of_string (App.escapeHtml unsafe)) ∧
  (JS.truthy unsafe = false → unsafe ≠ Some (VNum 0) → App.escapeHtml unsafe = "") ∧
  App.escapeHtml (Some (VNum 0)) = "0".
Proof.
  split; [|split].
  - unfold App.escapeHtml.
    destruct (negb (JS.truthy unsafe) && JS.is_not_zero unsafe); [constructor|].
    apply concat_entities_safe.
  - intros Hfalsy Hzero. unfold App.escapeHtml. rewrite Hfalsy. simpl.
    destruct unsafe as [[| |n| | |]|]; try done. by destruct n.
  - reflexivity.
Qed.

Lemma escapeHtml_leaves_no_markup_witness :
  App.escapeHtml (Some (VStr "<img src=x onerror='alert(1)'>")) =
    "&lt;img src&#x3D;x onerror&#x3D;&#39;alert(1)&#39;&gt;" ∧
  Forall (λ d, html_special d = true → d = "&"%char)
    (list_ascii_of_string
       (App.escapeHtml (Some (VStr "<img src=x onerror='alert(1)'>")))).
Proof.
  split; [reflexivity|].
  exact (proj1 (escapeHtml_leaves_no_markup _)).
Defined.

(** X15.  [escapeHtml] works character by character: the escape of
    two strings put together is their escapes put together, text with
    none of the replaced characters comes out as it went in, and the
    result is never shorter than the text. *)
Theorem escapeHtml_by_character (s t : string) :
  App.escapeHtml (Some (VStr (s +:+ t))) =
    App.escapeHtml (Some (VStr s)) +:+ App.escapeHtml (Some (VStr t)) ∧
  (Forall (λ c, html_special c = false) (list_ascii_of_string s) →
   App.escapeHtml (Some (VStr s)) = s) ∧
  (String.length s ≤ String.length (App.escapeHtml (Some (VStr s))))%nat.
Proof.
  rewrite !escapeHtml_string. split; [|split].
  - rewrite list_ascii_append, fmap_app.
    induction (list_ascii_of_string s) as [|c l IH]; [done|].
    cbn [fmap list_fmap app]. by rewrite !concat_cons, IH, append_assoc.
  - induction s as [|c s IH]; [done|].
    cbn [list_ascii_of_string fmap list_fmap]. intros [Hc Hs]%Forall_cons.
    by rewrite concat_cons, (entity_plain _ Hc), IH.
  - induction s as [|c s IH]; [done|].
    cbn [list_ascii_of_string fmap list_fmap]. rewrite concat_cons.
    assert (∀ a b, String.length (a +:+ b) = (String.length a + String.length b)%nat)
      as Hlen.
    { intros a b. induction a as [|a0 a IHa]; [done|].
      change (S (String.length (a +:+ b)) = S (String.length a + String.length b)).
      by rewrite IHa. }
    rewrite Hlen. cbn [String.length].
    assert (1 ≤ String.length (App.entity c))%nat
      by (unfold App.entity; repeat case_match; simpl; lia).
    lia.
Qed.

Lemma escapeHtml_by_character_witness :
  Forall (λ c, html_special c = false) (list_ascii_of_string "Fuga de agua") ∧
  App.escapeHtml (Some (VStr "Fuga de agua")) = "Fuga de agua".
Proof.
  assert (Forall (λ c, html_special c = false) (list_ascii_of_string "Fuga de agua"))
    as Hsafe by (repeat constructor).
  split; [exact Hsafe|].
  exact (proj1 (proj2 (escapeHtml_by_character "Fuga de agua" "")) Hsafe).
Defined.

(** ** The workers: further properties *)

Lemma fetch_or_spec fallback net request st :
  OldSW.fetch_or fallback net request st =
    (Resp match net request with Resp r => r | NetError _ => fallback end,
     SW.mkState (SW.caches st) (SW.network st ++ [SW.identity_of request])).
Proof. unfold OldSW.fetch_or, SW.fetch. by destruct (net request). Qed.

Lemma strip_trailing_slash_append (s : string) :
  JS.strip_trailing_slash (s +:+ "/") = s.
Proof.
  induction s as [|c s IH]; [done|].
  change (JS.strip_trailing_slash (String c (s +:+ "/")) = String c s).
  cbn [JS.strip_trailing_slash]. rewrite IH.
  destruct (s +:+ "/") eqn:Hs; [by destruct s|done].
Qed.

(** X16.  The earlier worker always answers: whatever the request, the
    caches and the network, the page gets a response and never a
    failure.  It reads the caches and never writes them.  When it asks
    the network, it asks once, and hands over the answer as it is; when
    the network fails it hands over a 503 that is not ok, the text
    [Offline] or, for a URL under its API base that is not a manifest
    path, the JSON [{ok: false, message: "No connection"}]. *)
Theorem old_worker_always_answers
    (origin : string) (net : SW.Request → FetchResult)
    (request : SW.Request) (st : SW.state) :
  let result := OldSW.onFetch origin net request st in
  (∃ r, result.1 = Resp r) ∧
  SW.caches result.2 = SW.caches st ∧
  (SW.network result.2 = SW.network st ∨
   SW.network result.2 = SW.network st ++ [SW.identity_of request]) ∧
  (SW.network result.2 = SW.network st ++ [SW.identity_of request] →
   (∀ r, net request = Resp r → result.1 = Resp r) ∧
   (∀ e, net request = NetError e →
      ∃ r, result.1 = Resp r ∧ status r = 503 ∧ ok r = false ∧
           (r = OldSW.no_connection ↔
            (JS.strip_trailing_slash (SW.pathname (SW.url request))
               ∉ OldSW.STATIC_ASSETS) ∧
            JS.startsWith OldSW.API_URL (SW.href (SW.url request)) = true))).
Proof.
  intros result. unfold result, OldSW.onFetch.
  assert (∀ l : list SW.identity, l ≠ l ++ [SW.identity_of request]) as Hgrow.
  { intros l Heq. apply (f_equal length) in Heq. rewrite length_app in Heq.
    simpl in Heq. lia. }
  destruct (bool_decide _) eqn:Hstatic;
    [destruct (SW.caches_match _ _) as [res|]|
     destruct (JS.startsWith _ _) eqn:Hapi];
    rewrite ?fetch_or_spec; cbn [fst snd SW.caches SW.network];
    (split; [by eexists|]); (split; [done|]);
    (split; [by (left + right)|]);
    intros Hnet; try (by apply Hgrow in Hnet);
    (split; [by intros r ->|]); intros e ->; eexists;
    (split; [reflexivity|]); (split; [done|]); (split; [done|]).
  - apply bool_decide_eq_true in Hstatic. split; [done|]. by intros [? _].
  - apply bool_decide_eq_false in Hstatic. done.
  - split; [done|]. by intros [_ ?].
Qed.

(** X17.  The earlier worker drops one slash from the end of the path
    before it looks at the manifest.  So a manifest path other than the
    root is served from the cache with or without a slash after it,
    without touching the network; and the root path, which the manifest
    lists, is never served from the cache: its request always goes to
    the network. *)
Theorem old_worker_trailing_slash
    (origin : string) (net : SW.Request → FetchResult)
    (request : SW.Request) (st : SW.state) :
  (∀ path r,
     path ∈ OldSW.STATIC_ASSETS → path ≠ "/" →
     SW.caches_match (SW.identity_of_path origin path) (SW.caches st) = Some r →
     SW.pathname (SW.url request) = path ∨
     SW.pathname (SW.url request) = path +:+ "/" →
     OldSW.onFetch origin net request st = (Resp r, st)) ∧
  (SW.pathname (SW.url request) = "/" →
   SW.network (OldSW.onFetch origin net request st).2 =
     SW.network st ++ [SW.identity_of request]).
Proof.
  split.
  - intros path r Hin Hroot Hcached Hpath.
    assert (JS.strip_trailing_slash (SW.pathname (SW.url request)) = path) as Hclean.
    { destruct Hpath as [->| ->]; [|apply strip_trailing_slash_append].
      unfold OldSW.STATIC_ASSETS in Hin.
      repeat (apply elem_of_cons in Hin as [->|Hin]; [done|]).
      by apply elem_of_nil in Hin. }
    unfold OldSW.onFetch. rewrite Hclean.
    rewrite bool_decide_eq_true_2 by done. by rewrite Hcached.
  - intros Hroot. unfold OldSW.onFetch. rewrite Hroot.
    cbn [JS.strip_trailing_slash Ascii.eqb Bool.eqb].
    rewrite bool_decide_eq_false_2.
    2:{ unfold OldSW.STATIC_ASSETS. intros Hin.
        repeat (apply elem_of_cons in Hin as [Hin|Hin]; [discriminate Hin|]).
        by apply elem_of_nil in Hin. }
    destruct (JS.startsWith _ _); by rewrite fetch_or_spec.
Qed.

Lemma old_worker_trailing_slash_witness :
  "/Home.html" ∈ OldSW.STATIC_ASSETS ∧
  OldSW.onFetch "https://ciudad.example" offline
    (SW.mkRequest "GET" (SW.mkURL "https://ciudad.example/Home.html/" "/Home.html/"))
    installed = (Resp home_page, installed).
Proof.
  assert ("/Home.html" ∈ OldSW.STATIC_ASSETS) as Hin
    by (apply list_elem_of_further, list_elem_of_here).
  split; [exact Hin|].
  apply (proj1 (old_worker_trailing_slash "https://ciudad.example" offline _ installed)
           "/Home.html" home_page Hin); [discriminate|reflexivity|by right].
Defined.

Lemma cache_named_put_ne name other key r cs :
  name ≠ other →
  SW.cache_named name (SW.cache_put other key r cs) = SW.cache_named name cs.
Proof.
  intros Hne. unfold SW.cache_put. destruct (SW.put_accepted key r); [|done].
  induction cs as [|[n c] cs IH]; [done|].
  cbn [fmap list_fmap fst snd SW.cache_named].
  destruct (String.eqb_spec n other) as [->|Hno]; cbn [SW.cache_named fst snd].
  - destruct (String.eqb_spec other name); [congruence|]. apply IH.
  - destruct (String.eqb n name); [done|]. apply IH.
Qed.

Lemma cache_named_open_ne name other cs :
  name ≠ other →
  SW.cache_named name (SW.caches_open other cs) = SW.cache_named name cs.
Proof.
  intros Hne. unfold SW.caches_open.
  destruct (SW.cache_named other cs); [done|].
  induction cs as [|[n c] cs IH]; simpl.
  - by destruct (String.eqb_spec other name); [congruence|].
  - destruct (String.eqb n name); [done|]. apply IH.
Qed.

(** X18.  The [fetch] handler writes the API generation and nothing
    else: every cache of another name, the static generation among
    them, is after the handler what it was before.  A request under the
    API base whose path is not in the manifest is always answered;
    another request fails only if the network failed, and then no
    cache has changed. *)
Theorem onFetch_writes_api_generation_only
    (origin : string) (net : SW.Request → FetchResult)
    (request : SW.Request) (st : SW.state) :
  let result := SW.onFetch origin net request st in
  let path := SW.pathname (SW.url request) in
  let href := SW.href (SW.url request) in
  (∀ name, name ≠ SW.API_CACHE →
     SW.cache_named name (SW.caches result.2) =
     SW.cache_named name (SW.caches st)) ∧
  (path ∉ SW.STATIC_ASSETS → JS.startsWith SW.API_BASE href = true →
   ∃ r, result.1 = Resp r) ∧
  (∀ e, result.1 = NetError e →
     net request = NetError e ∧
     SW.caches result.2 = SW.caches st ∧
     (path ∈ SW.STATIC_ASSETS ∨ JS.startsWith SW.API_BASE href = false)).
Proof.
  intros result path href. unfold result, SW.onFetch. fold path. fold href.
  destruct (bool_decide (path ∈ SW.STATIC_ASSETS)) eqn:Hstatic.
  - apply bool_decide_eq_true in Hstatic.
    destruct (SW.caches_match _ _) as [res|]; cbn [fst snd].
    + split; [done|]. split; [done|]. by intros e.
    + unfold SW.fetch. cbn [fst snd SW.caches].
      split; [done|]. split; [done|]. intros e ->. split; [done|]. split; [done|].
      by left.
  - apply bool_decide_eq_false in Hstatic.
    destruct (JS.startsWith SW.API_BASE href) eqn:Hapi.
    + unfold SW.apiNetworkThenCache, SW.fetch.
      destruct (net request) as [r|e]; cbn [fst snd SW.caches].
      * split; [|split; [by eexists|done]].
        intros name Hne. destruct (ok r); cbn [SW.caches]; [|done].
        by rewrite cache_named_put_ne, cache_named_open_ne.
      * destruct (SW.caches_match _ _); cbn [fst snd SW.caches];
          (split; [done|]); (split; [by eexists|done]).
    + unfold SW.fetch. destruct (net request) as [r|e]; cbn [fst snd SW.caches].
      * split; [done|]. split; [done|]. by intros e.
      * destruct (SW.caches_match _ _); cbn [fst snd SW.caches];
          (split; [done|]); (split; [done|]); intros e' He'; try done.
        injection He' as <-. split; [done|]. split; [done|]. by right.
Qed.

Lemma replay_request_url token a url config :
  App.replay_request token a = Some (url, config) →
  JS.startsWith App.apiBaseUrl url = true ∧
  ∃ method, JS.get "method" config = Some method.
Proof.
  unfold App.replay_request.
  destruct (App.prop "url" a) as [u|]; simpl; [|done].
  destruct (App.prop "method" a) as [m|]; simpl; [|done].
  destruct (App.prop "body" a) as [[b|]|]; simpl; [| |done];
    intros [= <- <-]; (split; [apply prefix_append|]);
    repeat case_match; by eexists.
Qed.

Lemma failed_of_all net token q : ∀ i,
  (∀ j a, q !! j = Some a → replay_failed net token (i + j) a = true) →
  failed_of net token i q = q.
Proof.
  induction q as [|a q IH]; intros i Hall; [done|].
  rewrite failed_of_cons.
  specialize (Hall 0%nat a eq_refl) as Ha. rewrite Nat.add_0_r in Ha. rewrite Ha.
  simpl. f_equal. apply IH. intros j b Hj.
  replace (S i + j)%nat with (i + S j)%nat by lia. by apply Hall.
Qed.

(** X19.  Through the worker, a drain made while the network is down
    loses queued actions.  The worker answers a request that the
    network cannot serve, and that it sees under the API base and
    outside the manifest, with a cached response or with the
    placeholder, both ok when the caches hold ok responses only; so the
    replay of such an action looks like a success to the page.  When
    every queued action is seen so, the drain leaves the persisted
    queue empty although no request was served by the network.  An
    action whose URL the worker sees outside both the API base and the
    manifest (a [url] with dot segments that lead out of [/api], say)
    and finds in no cache gets no answer: its replay fails and the
    action stays in the queue.  The worker's caches are the same after
    each of these requests, so every replay meets the same caches. *)
Theorem drain_through_offline_worker_empties_queue
    (origin : string) (request_of : string → object → SW.Request)
    (st : SW.state) (e : string) (p : page) (q : list value) :
  readQueue p = Some q →
  Forall is_action q →
  only_ok (SW.caches st) →
  let worker := SW.onFetch origin (λ _, NetError e) in
  let result := App.processSyncQueue (through worker request_of st) p in
  let token := getItem "authToken" p in
  ((∀ a url config,
      a ∈ q → App.replay_request token a = Some (url, config) →
      JS.startsWith SW.API_BASE (SW.href (SW.url (request_of url config))) = true ∧
      SW.pathname (SW.url (request_of url config)) ∉ SW.STATIC_ASSETS) →
   readQueue result.2 = Some []) ∧
  (∀ a url config,
     a ∈ q → App.replay_request token a = Some (url, config) →
     JS.startsWith SW.API_BASE (SW.href (SW.url (request_of url config))) = false →
     SW.pathname (SW.url (request_of url config)) ∉ SW.STATIC_ASSETS →
     SW.caches_match (SW.identity_of (request_of url config)) (SW.caches st) = None →
     ∃ left, readQueue result.2 = Some left ∧ a ∈ left) ∧
  (∀ request, SW.caches (worker request st).2 = SW.caches st).
Proof.
  intros Hq Hact Hok worker result token.
  destruct (processSyncQueue_readQueue (through worker request_of st) p q Hq)
    as [_ Hread].
  fold result in Hread. fold token in Hread. rewrite Hread.
  split; [|split].
  - intros Hseen. f_equal. apply failed_of_none. intros j a Hj. simpl.
    assert (a ∈ q) as Hin by by eapply list_elem_of_lookup_2.
    assert (is_action a) as Ha.
    { rewrite Forall_forall in Hact. by apply Hact. }
    destruct (replay_request_action token a Ha) as (url & config & Hreq).
    rewrite (replay_failed_action _ _ _ _ _ _ Hreq).
    destruct (Hseen a url config Hin Hreq) as [Hurl Hpath].
    unfold through, worker, SW.onFetch.
    rewrite bool_decide_eq_false_2 by done. rewrite Hurl.
    unfold SW.apiNetworkThenCache, SW.fetch. cbn [fst snd SW.caches].
    destruct (SW.caches_match _ _) as [cached|] eqn:Hm; cbn [fst is_failure].
    + destruct (holds_only_match _ _ _ _ Hok Hm) as [_ Hcached]. by rewrite Hcached.
    + done.
  - intros a url config Hin Hreq Hurl Hpath Hmiss.
    eexists. split; [reflexivity|].
    apply list_elem_of_lookup in Hin as [j Hj].
    apply elem_of_failed_of. exists j. split; [done|]. simpl.
    rewrite (replay_failed_action _ _ _ _ _ _ Hreq).
    unfold through, worker, SW.onFetch.
    rewrite bool_decide_eq_false_2 by done. rewrite Hurl.
    unfold SW.fetch. cbn [fst snd SW.caches]. by rewrite Hmiss.
  - intros request. unfold worker, SW.onFetch, SW.apiNetworkThenCache, SW.fetch.
    repeat case_match; by simplify_eq/=.
Qed.

Lemma api_path_not_static (x : string) : "/api" +:+ x ∉ SW.STATIC_ASSETS.
Proof.
  unfold SW.STATIC_ASSETS. intros Hin.
  repeat (apply elem_of_cons in Hin as [Hin|Hin]; [discriminate Hin|]).
  by apply elem_of_nil in Hin.
Qed.

Lemma drain_through_offline_worker_empties_queue_witness :
  readQueue sample_page = Some (entry_of <$> sample_calls) ∧
  readQueue
    (App.processSyncQueue
       (through (SW.onFetch "https://ciudad.example" offline) plain_api_request
          installed)
       sample_page).2 = Some [].
Proof.
  split; [reflexivity|].
  apply (drain_through_offline_worker_empties_queue "https://ciudad.example"
           plain_api_request installed "TypeError: Failed to fetch" sample_page
           (entry_of <$> sample_calls)).
  - reflexivity.
  - repeat constructor; by eexists.
  - intros name c key r Hin Hkey. unfold installed in Hin. cbn [SW.caches] in Hin.
    apply list_elem_of_singleton in Hin. injection Hin as -> ->.
    apply lookup_singleton_Some in Hkey as [_ <-]. reflexivity.
  - intros a url config Hin Hreq.
    destruct (replay_request_url _ _ _ _ Hreq) as [Hurl _].
    split; [exact Hurl|]. apply api_path_not_static.
Defined.

(** X20.  Through the earlier worker the same drain keeps the queue.
    With the network down that worker answers a request whose path, as
    it sees it, is not in its manifest with a 503, so every replay
    fails at the page and the persisted queue after the drain is the
    queue before it. *)
Theorem drain_through_old_offline_worker_keeps_queue
    (origin : string) (request_of : string → object → SW.Request)
    (st : SW.state) (e : string) (p : page) (q : list value) :
  readQueue p = Some q →
  Forall is_action q →
  (∀ a url config,
     a ∈ q → App.replay_request (getItem "authToken" p) a = Some (url, config) →
     JS.strip_trailing_slash (SW.pathname (SW.url (request_of url config)))
       ∉ OldSW.STATIC_ASSETS) →
  let worker := OldSW.onFetch origin (λ _, NetError e) in
  let result := App.processSyncQueue (through worker request_of st) p in
  readQueue result.2 = Some q ∧
  (∀ request, SW.caches (worker request st).2 = SW.caches st).
Proof.
  intros Hq Hact Hpath worker result. split.
  - destruct (processSyncQueue_readQueue (through worker request_of st) p q Hq)
      as [_ Hread].
    fold result in Hread. rewrite Hread.
    f_equal. apply failed_of_all. intros j a Hj. simpl.
    assert (a ∈ q) as Hin by by eapply list_elem_of_lookup_2.
    assert (is_action a) as Ha.
    { rewrite Forall_forall in Hact. by apply Hact. }
    destruct (replay_request_action (getItem "authToken" p) a Ha)
      as (url & config & Hreq).
    rewrite (replay_failed_action _ _ _ _ _ _ Hreq).
    unfold through, worker, OldSW.onFetch.
    rewrite bool_decide_eq_false_2 by by eapply Hpath.
    destruct (JS.startsWith OldSW.API_URL _); by rewrite fetch_or_spec.
  - intros request. unfold worker, OldSW.onFetch.
    repeat case_match; by rewrite ?fetch_or_spec.
Qed.

Lemma strip_api_path_not_old_static (x : string) :
  JS.strip_trailing_slash ("/api" +:+ x) ∉ OldSW.STATIC_ASSETS.
Proof.
  assert (∃ z, JS.strip_trailing_slash ("/api" +:+ x) = "/api" +:+ z) as [z ->].
  { change ("/api" +:+ x)
      with (String "/" (String "a" (String "p" (String "i" x)))).
    cbn [JS.strip_trailing_slash]. destruct x as [|c x].
    - by exists "".
    - by exists (JS.strip_trailing_slash (String c x)). }
  unfold OldSW.STATIC_ASSETS. intros Hin.
  repeat (apply elem_of_cons in Hin as [Hin|Hin]; [discriminate Hin|]).
  by apply elem_of_nil in Hin.
Qed.

Lemma drain_through_old_offline_worker_keeps_queue_witness :
  readQueue sample_page = Some (entry_of <$> sample_calls) ∧
  readQueue
    (App.processSyncQueue
       (through (OldSW.onFetch "https://ciudad.example" offline) plain_api_request
          installed)
       sample_page).2 = Some (entry_of <$> sample_calls).
Proof.
  split; [reflexivity|].
  apply (drain_through_old_offline_worker_keeps_queue "https://ciudad.example"
           plain_api_request installed "TypeError: Failed to fetch" sample_page
           (entry_of <$> sample_calls)).
  - reflexivity.
  - repeat constructor; by eexists.
  - intros a url config _ _. apply strip_api_path_not_old_static.
Defined.

(** ** Registration: further properties *)

(** X21.  A registration never signs in.  On a document that has the
    five fields, [handleRegisterSubmit] resolves and makes one request,
    the [POST] to [/Users] whose body is the JSON text of the five
    fields with [isAdmin: true], whatever role was chosen.  It never
    stores anything: it makes no [setItem], and it leaves the storage
    as it was unless the request is answered 401, when [apiCall] logs
    out and the two session keys are removed.  The only timer it can
    set is the move to [Login.html] after two seconds, set by
    [registerUser] exactly when the call resolved: since [registerUser]
    resolves to [true], which has no [success] property, the handler's
    own two messages are never shown and the move to [Home.html] is
    never scheduled.  On a document that lacks one of the fields it
    fails where it reads them, before any message or request. *)
Theorem handleRegisterSubmit_never_signs_in
    (net : string → object → FetchResult) (fields : form) (p : page) :
  let result := App.handleRegisterSubmit net fields p in
  ((∃ id, id ∈ ["name"; "lastName"; "email"; "password"; "rol"] ∧
          fields id = None) →
   ∃ e, result = (Rejected e, p, [])) ∧
  (∀ name lastName email password rol,
     fields "name" = Some name → fields "lastName" = Some lastName →
     fields "email" = Some email → fields "password" = Some password →
     fields "rol" = Some rol →
     let userData := App.userData_of name lastName email password rol in
     let url := App.apiBaseUrl +:+ "/Users" in
     let config :=
       App.apiCall_config (getItem "authToken" p)
         [("method", VStr "POST"); ("body", userData)] in
     let unauthorized :=
       match net url config with
       | Resp r => status r =? 401
       | NetError _ => false
       end in
     let call :=
       App.apiCall net "/Users" [("method", VStr "POST"); ("body", userData)]
         (App.showMessage "Creando cuenta..." 3000 p) in
     result.1.1 = Resolved () ∧
     fetches_since p result.1.2 = [EFetch url config] ∧
     JS.get "method" config = Some (VStr "POST") ∧
     JS.get "body" config = Some (VStr (JSON.stringify userData)) ∧
     filter (λ e, is_setItem e = true) (effects_since p result.1.2) = [] ∧
     storage_writes p result.1.2 =
       (if unauthorized
        then [ERemoveItem "authToken"; ERemoveItem "currentUser"]
        else []) ∧
     (unauthorized = false → localStorage result.1.2 = localStorage p) ∧
     ((∃ v, call.1 = Resolved v) ∧
      result.2 = [NavigateAfter 2000 "Login.html"] ∧
      last (effects_since p result.1.2) =
        Some (EShowMessage "Cuenta creada correctamente. Inicia sesión." 3000)
      ∨
      (∃ e, call.1 = Rejected e) ∧ result.2 = [] ∧
      last (effects_since p result.1.2) =
        Some (EShowMessage "Error al registrar usuario." 3000))).
Proof.
  intros result. split.
  - intros (id & Hid & Hnone). unfold result, App.handleRegisterSubmit.
    repeat (apply elem_of_cons in Hid as [->|Hid];
            [rewrite Hnone; repeat case_match; by eexists|]).
    by apply elem_of_nil in Hid.
  - intros name lastName email password rol H1 H2 H3 H4 H5
      userData url config unauthorized call.
    unfold result, call, unauthorized, App.handleRegisterSubmit.
    rewrite H1, H2, H3, H4, H5.
    unfold App.registerUser, App.apiCall, App.apiCall_catch, fetch.
    fold userData.
    change (getItem "authToken" (App.showMessage "Creando cuenta..." 3000 p))
      with (getItem "authToken" p).
    fold config. fold url.
    assert (JS.get "method" config = Some (VStr "POST")) as Hmethod by reflexivity.
    assert (JS.get "body" config = Some (VStr (JSON.stringify userData))) as Hbody
      by reflexivity.
    clearbody config.
    destruct (net url config) as [r|e]; cbn [negb];
      [destruct (ok r) eqn:Hok; cbn [negb];
       [destruct (JS.includes _ _);
        [destruct (JSON_parse (body r)) as [response|]|]|
        destruct (status r =? 401) eqn:H401]|];
      cbn [fst snd App.prop JS.truthy];
      (split; [done|]); (split; [by effects|]);
      (split; [done|]); (split; [done|]); (split; [by effects|]);
      (split; [try (by effects)|]);
      try (split; [try done|
        first [ left; split; [by eexists|]; split; [done|]; by effects
              | right; split; [by eexists|]; split; [done|]; by effects ]]).
    all: unfold ok in Hok.
    all: destruct (status r =? 401) eqn:H401; [|by effects].
    all: apply Z.eqb_eq in H401; rewrite H401 in Hok; discriminate Hok.
Qed.

Lemma handleRegisterSubmit_never_signs_in_witness :
  storage_writes sample_page
    (App.handleRegisterSubmit (api_status 401) register_form sample_page).1.2 =
    [ERemoveItem "authToken"; ERemoveItem "currentUser"] ∧
  (App.handleRegisterSubmit (api_status 401) register_form sample_page).2 = [] ∧
  storage_writes sample_page
    (App.handleRegisterSubmit (api_status 201) register_form sample_page).1.2 = [].
Proof.
  destruct (proj2 (handleRegisterSubmit_never_signs_in (api_status 401)
                     register_form sample_page)
              "Ana" "Limón" "ana@example.org" "s3creta" "ciudadano"
              eq_refl eq_refl eq_refl eq_refl eq_refl)
    as (_ & _ & _ & _ & _ & Hwrites & _ & Hend).
  split; [exact Hwrites|]. split.
  - destruct Hend as [([v Hv] & _)|(_ & Htimers & _)];
      [discriminate Hv|exact Htimers].
  - reflexivity.
Defined.

(** ** The filter of the reports table: properties *)





(** ** The connectivity banner: properties *)

(** X23.  The [online] and [offline] events.  The handler drains the
    queue exactly when the browser is online and the page has the
    element [#status-message]: then its requests are those the queue
    asks for, in order, and the persisted queue afterwards holds the
    actions whose replay failed.  On a page without that element the
    handler fails before it reaches the drain, so coming back online
    replays nothing and the queue stays as it was; going offline never
    touches the page.  The banner it leaves does not depend on the
    banner it found: it has the class [offline] and the text exactly
    when the browser is offline. *)
Theorem updateOnlineStatus_drains_with_banner
    (net : nat → string → object → FetchResult) (onLine : bool)
    (statusMessage : option banner) (p : page) (q : list value) :
  readQueue p = Some q →
  let result := App.updateOnlineStatus net onLine statusMessage p in
  let drains := match statusMessage with Some _ => onLine | None => false end in
  let token := getItem "authToken" p in
  fetches_since p result.2 = (if drains then requests_of token q else []) ∧
  readQueue result.2 = Some (if drains then failed_of net token 0 q else q) ∧
  (drains = false → result.2 = p) ∧
  match statusMessage with
  | Some _ =>
      result.1 =
        Resolved (mkBanner (negb onLine)
                    (if onLine then "" else "Sin conexión a internet"))
  | None => ∃ e, result.1 = Rejected e
  end.
Proof.
  intros Hq result drains token.
  assert (fetches_since p p = []) as Hnone.
  { unfold fetches_since, effects_since. by rewrite drop_all. }
  unfold result, drains, App.updateOnlineStatus.
  destruct statusMessage as [b|]; [destruct onLine|]; cbn [fst snd negb].
  - rewrite (processSyncQueue_fetches _ _ _ Hq).
    destruct (processSyncQueue_readQueue net p q Hq) as [_ ->]. done.
  - done.
  - split; [done|]. split; [done|]. split; [done|]. by eexists.
Qed.

Lemma updateOnlineStatus_drains_with_banner_witness :
  readQueue sample_page = Some (entry_of <$> sample_calls) ∧
  readQueue (App.updateOnlineStatus (net_status 200) true None sample_page).2 =
    Some (entry_of <$> sample_calls) ∧
  readQueue
    (App.updateOnlineStatus (net_status 200) true
       (Some (mkBanner true "Sin conexión a internet")) sample_page).2 = Some [].
Proof.
  assert (readQueue sample_page = Some (entry_of <$> sample_calls)) as Hq
    by reflexivity.
  split; [exact Hq|]. split.
  - exact (proj1 (proj2 (updateOnlineStatus_drains_with_banner (net_status 200)
                           true None sample_page _ Hq))).
  - rewrite (proj1 (proj2 (updateOnlineStatus_drains_with_banner (net_status 200)
                             true (Some (mkBanner true "Sin conexión a internet"))
                             sample_page _ Hq))).
    reflexivity.
Defined.

(** ** Installation: properties *)

Lemma fold_insert_lookup (entries : list (SW.identity * Response)) :
  ∀ (c : SW.Cache) key,
    (key ∈ entries.*1 ∨ is_Some (c !! key)) →
    ∃ r, fold_left (λ c kr, <[kr.1 := kr.2]> c) entries c !! key = Some r ∧
         ((key, r) ∈ entries ∨ c !! key = Some r).
Proof.
  induction entries as [|[k r0] entries IH]; intros c key Hkey; simpl.
  - destruct Hkey as [Hin|[r Hr]]; [by apply elem_of_nil in Hin|].
    exists r. split; [done|by right].
  - destruct (IH (<[k := r0]> c) key) as (r & Hr & Hfrom).
    + destruct Hkey as [Hin|[r Hr]].
      * simpl in Hin. apply elem_of_cons in Hin as [->|Hin]; [|by left].
        right. rewrite lookup_insert_eq. by eexists.
      * right. destruct (decide (k = key)) as [->|Hne].
        -- rewrite lookup_insert_eq. by eexists.
        -- rewrite lookup_insert_ne by done. by eexists.
    + exists r. split; [done|]. destruct Hfrom as [Hin|Hc].
      * left. by apply list_elem_of_further.
      * destruct (decide (k = key)) as [->|Hne].
        -- rewrite lookup_insert_eq in Hc. injection Hc as <-.
           left. apply list_elem_of_here.
        -- rewrite lookup_insert_ne in Hc by done. by right.
Qed.

Lemma fold_put_named name (entries : list (SW.identity * Response)) :
  Forall (λ kr, SW.put_accepted kr.1 kr.2 = true) entries →
  ∀ cs c,
    SW.cache_named name cs = Some c →
    SW.cache_named name
      (fold_left (λ cs kr, SW.cache_put name kr.1 kr.2 cs) entries cs) =
    Some (fold_left (λ c kr, <[kr.1 := kr.2]> c) entries c).
Proof.
  induction 1 as [|[k r] entries Htaken _ IH]; intros cs c Hc; simpl; [done|].
  apply IH. by apply cache_named_put.
Qed.

Lemma fold_put_alone name (entries : list (SW.identity * Response)) :
  Forall (λ kr, SW.put_accepted kr.1 kr.2 = true) entries →
  ∀ c,
    fold_left (λ cs kr, SW.cache_put name kr.1 kr.2 cs) entries [(name, c)] =
    [(name, fold_left (λ c kr, <[kr.1 := kr.2]> c) entries c)].
Proof.
  induction 1 as [|[k r] entries Htaken _ IH]; intros c; simpl; [done|].
  simpl in Htaken.
  assert (SW.cache_put name k r [(name, c)] = [(name, <[k := r]> c)]) as ->.
  { unfold SW.cache_put. rewrite Htaken. simpl. by rewrite String.eqb_refl. }
  apply IH.
Qed.

Lemma caches_match_is_Some name key cs c :
  SW.cache_named name cs = Some c → is_Some (c !! key) →
  is_Some (SW.caches_match key cs).
Proof.
  induction cs as [|[n0 c0] cs IH]; simpl; [done|].
  destruct (c0 !! key) as [r0|] eqn:Hc0; [by eexists|].
  destruct (String.eqb n0 name).
  - intros [= <-] [r Hr]. congruence.
  - apply IH.
Qed.

(** X24.  What an installation is for.  When every entry of the
    manifest was fetched with an ok answer that the caches take (not a
    partial one and not one that varies on everything, which
    [cache.addAll] refuses like an answer that is not ok), every page,
    script and image of the manifest is afterwards served by the
    [fetch] handler from the cache, whatever the network does, and
    without a request to it; on a first installation the response
    served is the one the installation fetched for that path. *)
Theorem install_makes_shell_available_offline
    (origin : string) (net : string → FetchResult)
    (net' : SW.Request → FetchResult) (st : SW.state) (request : SW.Request) :
  (∀ asset, asset ∈ SW.STATIC_ASSETS →
     ∃ r, net (SW.asset_url origin asset) = Resp r ∧ ok r = true ∧
          SW.storable r = true) →
  let path := SW.pathname (SW.url request) in
  path ∈ SW.STATIC_ASSETS → JS.startsWith "/" path = true →
  let st' := SW.onInstall origin net st in
  ∃ r, SW.onFetch origin net' request st' = (Resp r, st') ∧
       (SW.caches st = [] → net (origin +:+ path) = Resp r).
Proof.
  intros Hall path Hpath Hslash st'.
  assert (∃ entries,
            mapM (SW.asset_entry net) (SW.asset_url origin <$> SW.STATIC_ASSETS) =
              Some entries ∧
            (∀ key r, (key, r) ∈ entries → key.1 = "GET" ∧ net key.2 = Resp r) ∧
            Forall (λ kr, SW.put_accepted kr.1 kr.2 = true) entries ∧
            SW.identity_of_path origin path ∈ entries.*1)
    as (entries & Hentries & Hfrom & Htaken & Hkey).
  { destruct (mapM (SW.asset_entry net) (SW.asset_url origin <$> SW.STATIC_ASSETS))
      as [entries|] eqn:Hm.
    - exists entries. split; [done|]. apply mapM_Some in Hm.
      assert (∀ key r, (key, r) ∈ entries →
                key.1 = "GET" ∧ net key.2 = Resp r ∧
                SW.put_accepted key r = true) as Hentry.
      { intros key r Hin.
        apply list_elem_of_lookup in Hin as [i Hi].
        destruct (Forall2_lookup_r _ _ _ _ _ Hm Hi) as (u & _ & Hu).
        unfold SW.asset_entry in Hu.
        destruct (net u) as [r'|] eqn:Hnet; [|done].
        destruct (ok r'); [|done]. simpl in Hu.
        destruct (SW.storable r') eqn:Hwhole; [|done].
        injection Hu as <- <-. split; [done|]. split; [done|].
        unfold SW.put_accepted. simpl. by rewrite Hwhole. }
      split; [|split].
      + intros key r Hin. by destruct (Hentry key r Hin) as (? & ? & _).
      + apply Forall_forall. intros [key r] Hin.
        by destruct (Hentry key r Hin) as (_ & _ & ?).
      + assert (SW.asset_url origin path ∈ SW.asset_url origin <$> SW.STATIC_ASSETS)
          as Hu by by apply list_elem_of_fmap_2.
        apply list_elem_of_lookup in Hu as [i Hi].
        destruct (Forall2_lookup_l _ _ _ _ _ Hm Hi) as ([key r] & He & Hu).
        destruct (Hall path Hpath) as (r' & Hnet & Hok & Hwhole).
        unfold SW.asset_entry in Hu. rewrite Hnet, Hok, Hwhole in Hu.
        injection Hu as <- <-.
        apply list_elem_of_fmap. exists (("GET", SW.asset_url origin path), r').
        split; [|by eapply list_elem_of_lookup_2].
        unfold SW.identity_of_path, SW.asset_url. by rewrite Hslash.
    - exfalso. assert (is_Some (mapM (SW.asset_entry net)
                 (SW.asset_url origin <$> SW.STATIC_ASSETS))) as [? Hs]; [|congruence].
      apply mapM_is_Some, Forall_fmap, Forall_forall. intros asset Hin. simpl.
      destruct (Hall asset Hin) as (r & Hnet & Hok & Hwhole).
      unfold SW.asset_entry. rewrite Hnet, Hok, Hwhole. by eexists. }
  assert (SW.caches st' =
            fold_left (λ cs kr, SW.cache_put SW.CACHE_NAME kr.1 kr.2 cs) entries
              (SW.caches_open SW.CACHE_NAME (SW.caches st))) as Hcaches.
  { unfold st', SW.onInstall. by rewrite Hentries. }
  unfold SW.onFetch. fold path. rewrite bool_decide_eq_true_2 by done.
  destruct (cache_named_open SW.CACHE_NAME (SW.caches st)) as [c0 Hc0].
  pose proof (fold_put_named SW.CACHE_NAME entries Htaken _ _ Hc0) as Hnamed.
  rewrite <- Hcaches in Hnamed.
  destruct (fold_insert_lookup entries c0 (SW.identity_of_path origin path))
    as (r & Hr & _); [by left|].
  destruct (caches_match_is_Some _ (SW.identity_of_path origin path) _ _ Hnamed)
    as [res Hres]; [by eexists|].
  rewrite Hres. exists res. split; [done|].
  intros Hfresh. rewrite Hcaches, Hfresh in Hres.
  change (SW.caches_open SW.CACHE_NAME []) with [(SW.CACHE_NAME, ∅ : SW.Cache)] in Hres.
  rewrite fold_put_alone in Hres by done. simpl in Hres.
  destruct (fold_insert_lookup entries ∅ (SW.identity_of_path origin path))
    as (r1 & Hr1 & [Hin|Hempty]); [by left| |by rewrite lookup_empty in Hempty].
  rewrite Hr1 in Hres. injection Hres as <-.
  by destruct (Hfrom _ _ Hin) as [_ ?].
Qed.

Lemma install_makes_shell_available_offline_witness :
  ∃ r,
    SW.onFetch "https://ciudad.example" offline home_request
      (SW.onInstall "https://ciudad.example" (λ _, Resp home_page)
         (SW.mkState [] [])) =
    (Resp r,
     SW.onInstall "https://ciudad.example" (λ _, Resp home_page) (SW.mkState [] [])) ∧
    r = home_page.
Proof.
  destruct (install_makes_shell_available_offline "https://ciudad.example"
              (λ _, Resp home_page) offline (SW.mkState [] []) home_request)
    as (r & Hserved & Hfresh).
  - intros asset _. by exists home_page.
  - apply list_elem_of_further, list_elem_of_here.
  - reflexivity.
  - exists r. split; [exact Hserved|].
    specialize (Hfresh eq_refl). by injection Hfresh.
Defined.
